(** * Bridge event listener: a shallow embedding of [script.py]

    The script watches a source bridge contract for [BridgeTransferInitiated]
    events and, for every new event, builds and signs a [releaseTokens]
    transaction for the destination bridge contract.  The embedding keeps the
    script's structure: the two classes [BridgeEventHandler] and
    [BridgeEventListener], the loader [load_config_from_env] and the entry
    point.  Python exceptions, the logger, the two mutable attributes
    ([processed_transactions], [last_processed_block]) and the calls to the
    libraries the script imports are threaded through a state-and-exception
    monad [M].

    Two things are left out.  Exceptions that do not derive from
    [Exception] (a keyboard interrupt, an exit request), which no handler of
    the script catches: a run is followed as long as no such signal arrives.
    And the text of the log lines: a record keeps the level, the statement
    that wrote it and the values it interpolates. *)

From Stdlib Require Import ZArith List Ascii String Lia.
From Stdlib.Strings Require Import Byte.
From stdpp Require Import base decidable gmap strings list.

Local Open Scope string_scope.
Local Open Scope list_scope.
Local Open Scope Z_scope.

(** ** Data *)

(** [BridgeConfig], field by field (a dataclass; Python integers are
    unbounded, hence [Z]). *)
Record BridgeConfig := mkBridgeConfig {
  source_chain_rpc : string;
  destination_chain_rpc : string;
  source_bridge_address : string;
  destination_bridge_address : string;
  listener_private_key : string;
  start_block : Z;
  poll_interval_seconds : Z
}.

(** The decoded arguments of a [BridgeTransferInitiated] log, as laid out by
    [SOURCE_BRIDGE_ABI]. *)
Record EventArgs := mkEventArgs {
  transactionId : list byte;
  sender : string;
  destinationChainId : Z;
  token : string;
  amount : Z
}.

(** An event dictionary as web3 returns it: the decoded [args] and the
    position of the log on the source ledger. *)
Record Event := mkEvent {
  args : EventArgs;
  blockNumber : Z;
  logIndex : Z
}.

(** The call [releaseTokens(sourceTransactionId, recipient, token, amount)]
    on a destination bridge contract, as laid out by
    [DESTINATION_BRIDGE_ABI]. *)
Record ReleaseCall := mkReleaseCall {
  rc_contract : string;
  rc_sourceTransactionId : list byte;
  rc_recipient : string;
  rc_token : string;
  rc_amount : Z
}.

(** The dictionary [tx_payload] handed to [build_transaction]. *)
Record TxPayload := mkTxPayload {
  tx_from : string;
  tx_nonce : Z;
  tx_gas : Z;
  tx_gasPrice : Z
}.

(** What [build_transaction] returns and what [sign_transaction] returns;
    their contents are web3's business. *)
Record TxDict := mkTxDict { txd_fields : TxPayload; txd_to : string; txd_data : list byte }.
Record SignedTx := mkSignedTx { rawTransaction : list byte; signed_hash : list byte }.

(** Exceptions.  Every one of them derives from Python's [Exception];
    [RequestsConnectionError] is [requests.exceptions.ConnectionError], the
    class named in the loop's first handler, and [ConnectionError] is the
    builtin raised by [ChainConnector.__init__]. *)
Inductive exn :=
| ValueError (msg : string)
| ConnectionError (msg : string)
| RequestsConnectionError (msg : string)
| OtherException (msg : string).

(** The reply of a library call. *)
Inductive Reply (A : Type) :=
| Returns (a : A)
| Throws (e : exn).
Arguments Returns {A} a.
Arguments Throws {A} e.

(** ** Logging *)

Inductive Level := INFO | WARNING | ERROR | CRITICAL.

(** One constructor per logging statement of the script, with the values
    its format string interpolates. *)
Inductive Message :=
| MsgConnectFailed (rpc_url : string)
| MsgConnected (chain : Z)
| MsgAlreadyProcessed (tx_id : string)
| MsgProcessingNew (tx_id : string)
| MsgSuccessfullyProcessed (tx_id : string)
| MsgErrorProcessing (event : Event) (e : exn)
| MsgPreparing (amt : Z) (tok recipient tx_id : string)
| MsgSimWouldHaveSent
| MsgSimSignedTx (h : string)
| MsgFailedBuildOrSign (tx_id : string) (e : exn)
| MsgStarting (contract : string)
| MsgInitialBlock (b : Z)
| MsgScanning (from_block to_block : Z)
| MsgFound (n : nat)
| MsgNoNewEvents
| MsgRpcConnectionError (e : exn) (retry_in : Z)
| MsgUnexpected (e : exn)
| MsgConfigurationError (e : exn)
| MsgCriticalInit (e : exn).

Record LogRecord := mkLog { level : Level; message : Message }.

(** ** Calls that reach a ledger node *)

(** The node operations of web3's [eth] module.  The last two are the ones
    a broadcast consists of. *)
Inductive RpcOp :=
| OpIsConnected
| OpChainId
| OpBlockNumber
| OpCreateFilter (contract : string) (fromBlock toBlock : Z)
| OpGetAllEntries (filter_id : Z)
| OpGetTransactionCount (addr : string)
| OpGasPrice
| OpBuildTransaction (call : ReleaseCall) (payload : TxPayload)
| OpSendRawTransaction (raw : list byte)
| OpWaitForTransactionReceipt (tx_hash : list byte).

(** A call is an operation sent to the node behind an RPC endpoint. *)
Record Call := mkCall { call_rpc : string; call_op : RpcOp }.

(** ** [bytes.hex()]

    Two lower-case hexadecimal digits per byte.  (Some versions of the
    [HexBytes] class put ["0x"] in front; the identifier is only compared
    with other identifiers built the same way.) *)

Definition hex_digit (n : N) : ascii :=
  nth (N.to_nat n)
      ["0"; "1"; "2"; "3"; "4"; "5"; "6"; "7"; "8"; "9";
       "a"; "b"; "c"; "d"; "e"; "f"]%char "0"%char.

Fixpoint hex (bs : list byte) : string :=
  match bs with
  | [] => EmptyString
  | b :: rest =>
      let n := Byte.to_N b in
      String (hex_digit (n / 16)) (String (hex_digit (n mod 16)) (hex rest))
  end.

(** ** The libraries the script imports

    [W] is the state of everything outside the process (both ledgers and
    the clock).  A call that talks to a node takes the RPC endpoint of the
    [ChainConnector] it goes through and may change [W]; [to_checksum_address],
    [from_key] and [sign_transaction] are local computations; [py_int] is
    Python's [int] on strings; [time_sleep] is [time.sleep], which returns
    once the time has passed or throws (on a negative length, and on a
    length the platform cannot represent). *)
Record Externals (W : Type) := mkExternals {
  is_connected : string -> W -> bool * W;
  chain_id : string -> W -> Reply Z * W;
  block_number : string -> W -> Reply Z * W;
  create_filter : string -> string -> Z -> Z -> W -> Reply Z * W;
  get_all_entries : string -> Z -> W -> Reply (list Event) * W;
  get_transaction_count : string -> string -> W -> Reply Z * W;
  gas_price : string -> W -> Reply Z * W;
  build_transaction : string -> ReleaseCall -> TxPayload -> W -> Reply TxDict * W;
  to_checksum_address : string -> Reply string;
  from_key : string -> Reply string;
  sign_transaction : TxDict -> string -> Reply SignedTx;
  time_sleep : Z -> W -> Reply unit * W;
  py_int : string -> Reply Z
}.
Arguments is_connected {W}.
Arguments chain_id {W}.
Arguments block_number {W}.
Arguments create_filter {W}.
Arguments get_all_entries {W}.
Arguments get_transaction_count {W}.
Arguments gas_price {W}.
Arguments build_transaction {W}.
Arguments to_checksum_address {W}.
Arguments from_key {W}.
Arguments sign_transaction {W}.
Arguments time_sleep {W}.
Arguments py_int {W}.

(** ** Program state and the monad *)

(** The state of a run: the outside world, the log written so far, the node
    calls made so far (both oldest first), and the two attributes the script
    mutates: [BridgeEventHandler.processed_transactions] (a set of hex
    strings) and [BridgeEventListener.last_processed_block].  There is one
    handler and one listener per process; before their constructors have run
    the two attributes hold the constructors' initial values for them. *)
Record State (W : Type) := mkState {
  world : W;
  log : list LogRecord;
  calls : list Call;
  processed_transactions : gset string;
  last_processed_block : Z
}.
Arguments mkState {W}.
Arguments world {W}.
Arguments log {W}.
Arguments calls {W}.
Arguments processed_transactions {W}.
Arguments last_processed_block {W}.

(** How a computation stands after a bounded number of loop iterations: it
    returned, it raised, or it is still inside [while True]. *)
Inductive Res (A : Type) :=
| Ok (a : A)
| Raise (e : exn)
| Running.
Arguments Ok {A} a.
Arguments Raise {A} e.
Arguments Running {A}.

Definition M (W A : Type) : Type := State W -> Res A * State W.

Definition ret {W A} (a : A) : M W A := fun st => (Ok a, st).

Definition bind {W A B} (m : M W A) (k : A -> M W B) : M W B :=
  fun st =>
    match m st with
    | (Ok a, st') => k a st'
    | (Raise e, st') => (Raise e, st')
    | (Running, st') => (Running, st')
    end.

Definition raise {W A} (e : exn) : M W A := fun st => (Raise e, st).

(** [try: body / except Exception as e: handler e].  A computation that is
    still running is not an exception. *)
Definition try_except {W A} (body : M W A) (handler : exn -> M W A) : M W A :=
  fun st =>
    match body st with
    | (Raise e, st') => handler e st'
    | r => r
    end.

Declare Scope py_scope.
Delimit Scope py_scope with py.
Notation "x <~ c ;; k" := (bind c (fun x => k))
  (at level 100, c at next level, right associativity) : py_scope.
Notation "c ;;; k" := (bind c (fun _ => k))
  (at level 100, right associativity) : py_scope.

Local Open Scope py_scope.

(** Reading and writing the state. *)
Definition gets {W A} (f : State W -> A) : M W A := fun st => (Ok (f st), st).

Definition set_processed_transactions {W} (s : gset string) : M W unit :=
  fun st => (Ok tt, mkState (world st) (log st) (calls st) s (last_processed_block st)).

Definition set_last_processed_block {W} (b : Z) : M W unit :=
  fun st => (Ok tt, mkState (world st) (log st) (calls st) (processed_transactions st) b).

(** [logger.info], [logger.warning], [logger.error], [logger.critical]. *)
Definition logger {W} (lv : Level) (m : Message) : M W unit :=
  fun st =>
    (Ok tt, mkState (world st) (log st ++ [mkLog lv m]) (calls st)
                    (processed_transactions st) (last_processed_block st)).

(** A library call that reaches the node behind [rpc_url]: the call is
    recorded, the world moves, and the reply is returned or raised. *)
Definition rpc {W A} (rpc_url : string) (op : RpcOp) (f : W -> Reply A * W) : M W A :=
  fun st =>
    let '(r, w') := f (world st) in
    let st' := mkState w' (log st) (calls st ++ [mkCall rpc_url op])
                       (processed_transactions st) (last_processed_block st) in
    match r with
    | Returns a => (Ok a, st')
    | Throws e => (Raise e, st')
    end.

(** A library call that stays inside the process. *)
Definition local {W A} (r : Reply A) : M W A :=
  fun st =>
    match r with
    | Returns a => (Ok a, st)
    | Throws e => (Raise e, st)
    end.

(** [for x in xs: body x] *)
Fixpoint for_each {W A} (xs : list A) (body : A -> M W unit) : M W unit :=
  match xs with
  | [] => ret tt
  | x :: rest => body x ;;; for_each rest body
  end.

(** [while True: body], cut after [fuel] iterations.  The loop has no
    [break] and no [return]: it is left only by an exception of its body. *)
Fixpoint while_true {W A} (fuel : nat) (body : M W unit) : M W A :=
  match fuel with
  | O => fun st => (Running, st)
  | S n => body ;;; while_true n body
  end.

(** [time.sleep(secs)]: a library call that reaches no node.  Whether it
    returns or raises is the library's business; what it raises is raised
    here. *)
Definition sleep {W} (ext : Externals W) (secs : Z) : M W unit :=
  fun st =>
    let '(r, w') := time_sleep ext secs (world st) in
    let st' := mkState w' (log st) (calls st)
                       (processed_transactions st) (last_processed_block st) in
    match r with
    | Returns _ => (Ok tt, st')
    | Throws e => (Raise e, st')
    end.

(** ** The classes *)

Record ChainConnector := mkChainConnector { rpc_url : string }.

(** A web3 contract object: the connector's endpoint and the checksummed
    address (the ABI is the constant of the script). *)
Record Contract := mkContract { contract_rpc : string; contract_address : string }.

Record BridgeEventHandler := mkBridgeEventHandler {
  h_config : BridgeConfig;
  h_dest_connector : ChainConnector;
  dest_bridge_contract : Contract
}.

Record BridgeEventListener := mkBridgeEventListener {
  l_config : BridgeConfig;
  source_connector : ChainConnector;
  dest_connector : ChainConnector;
  event_handler : BridgeEventHandler;
  source_bridge_contract : Contract
}.

(** [contract.functions.releaseTokens(...)]: the call object for a release,
    before it is built into a transaction. *)
Definition releaseTokens (contract : Contract) (sourceTransactionId : list byte)
    (recipient tok : string) (amt : Z) : ReleaseCall :=
  mkReleaseCall (contract_address contract) sourceTransactionId recipient tok amt.

Section Script.

Context {W : Type} (ext : Externals W).

(** [ChainConnector.__init__] *)
Definition ChainConnector_init (url : string) : M W ChainConnector :=
  connected <~ rpc url OpIsConnected
                 (fun w => let '(b, w') := is_connected ext url w in (Returns b, w')) ;;
  if negb connected then
    logger ERROR (MsgConnectFailed url) ;;;
    raise (ConnectionError (String.append "Unable to connect to " url))
  else
    cid <~ rpc url OpChainId (chain_id ext url) ;;
    logger INFO (MsgConnected cid) ;;;
    ret (mkChainConnector url).

(** [ChainConnector.get_contract] *)
Definition get_contract (self : ChainConnector) (address : string) : M W Contract :=
  checksum_address <~ local (to_checksum_address ext address) ;;
  ret (mkContract (rpc_url self) checksum_address).

(** [BridgeEventHandler.__init__] *)
Definition BridgeEventHandler_init (config : BridgeConfig) (dest : ChainConnector)
  : M W BridgeEventHandler :=
  contract <~ get_contract dest (destination_bridge_address config) ;;
  set_processed_transactions ∅ ;;;
  ret (mkBridgeEventHandler config dest contract).

(** [BridgeEventHandler._simulate_release_tokens].  The account is derived
    before the inner [try]; nonce, gas price, build and sign are inside it;
    its handler logs and re-raises.  Nothing is sent. *)
Definition _simulate_release_tokens (self : BridgeEventHandler) (event : Event) : M W unit :=
  let a := args event in
  let sender_address := sender a in
  let tx_id := transactionId a in
  let url := rpc_url (h_dest_connector self) in
  let key := listener_private_key (h_config self) in
  logger INFO (MsgPreparing (amount a) (token a) sender_address (hex tx_id)) ;;;
  wallet_address <~ local (from_key ext key) ;;
  try_except
    (nonce <~ rpc url (OpGetTransactionCount wallet_address)
                (get_transaction_count ext url wallet_address) ;;
     price <~ rpc url OpGasPrice (gas_price ext url) ;;
     let tx_payload := mkTxPayload wallet_address nonce 200000 price in
     let call := releaseTokens (dest_bridge_contract self)
                               tx_id sender_address (token a) (amount a) in
     release_tx <~ rpc url (OpBuildTransaction call tx_payload)
                     (build_transaction ext url call tx_payload) ;;
     signed_tx <~ local (sign_transaction ext release_tx key) ;;
     logger INFO MsgSimWouldHaveSent ;;;
     logger INFO (MsgSimSignedTx (hex (signed_hash signed_tx))))
    (fun e =>
       logger ERROR (MsgFailedBuildOrSign (hex tx_id) e) ;;;
       raise e).

(** [BridgeEventHandler.process_event] *)
Definition process_event (self : BridgeEventHandler) (event : Event) : M W unit :=
  try_except
    (let tx_id := hex (transactionId (args event)) in
     processed <~ gets processed_transactions ;;
     if decide (tx_id ∈ processed) then
       logger WARNING (MsgAlreadyProcessed tx_id)
     else
       logger INFO (MsgProcessingNew tx_id) ;;;
       _simulate_release_tokens self event ;;;
       processed' <~ gets processed_transactions ;;
       set_processed_transactions ({[tx_id]} ∪ processed') ;;;
       logger INFO (MsgSuccessfullyProcessed tx_id))
    (fun e => logger ERROR (MsgErrorProcessing event e)).

(** [BridgeEventListener.__init__] *)
Definition BridgeEventListener_init (config : BridgeConfig) : M W BridgeEventListener :=
  src <~ ChainConnector_init (source_chain_rpc config) ;;
  dst <~ ChainConnector_init (destination_chain_rpc config) ;;
  handler <~ BridgeEventHandler_init config dst ;;
  contract <~ get_contract src (source_bridge_address config) ;;
  first <~ (if start_block config =? 0
            then rpc (rpc_url src) OpBlockNumber (block_number ext (rpc_url src))
            else ret (start_block config)) ;;
  set_last_processed_block first ;;;
  ret (mkBridgeEventListener config src dst handler contract).

(** The [try] block of one iteration of the loop in [run]. *)
Definition scan_and_dispatch (self : BridgeEventListener) : M W unit :=
  let url := rpc_url (source_connector self) in
  latest_block <~ rpc url OpBlockNumber (block_number ext url) ;;
  last <~ gets last_processed_block ;;
  if last <? latest_block then
    let from_block := last + 1 in
    let to_block := latest_block in
    logger INFO (MsgScanning from_block to_block) ;;;
    event_filter <~ rpc url
        (OpCreateFilter (contract_address (source_bridge_contract self)) from_block to_block)
        (create_filter ext url (contract_address (source_bridge_contract self))
                       from_block to_block) ;;
    events <~ rpc url (OpGetAllEntries event_filter) (get_all_entries ext url event_filter) ;;
    match events with
    | [] => logger INFO MsgNoNewEvents
    | _ :: _ =>
        logger INFO (MsgFound (length events)) ;;;
        for_each events (process_event (event_handler self))
    end ;;;
    set_last_processed_block to_block
  else ret tt.

(** The two [except] clauses of the loop. *)
Definition loop_handler (self : BridgeEventListener) (e : exn) : M W unit :=
  match e with
  | RequestsConnectionError _ =>
      logger ERROR (MsgRpcConnectionError e (poll_interval_seconds (l_config self)))
  | _ => logger ERROR (MsgUnexpected e)
  end.

(** One iteration of the loop: the guarded block, then the sleep, which is
    outside the [try]. *)
Definition cycle (self : BridgeEventListener) : M W unit :=
  try_except (scan_and_dispatch self) (loop_handler self) ;;;
  sleep ext (poll_interval_seconds (l_config self)).

(** [BridgeEventListener.run] *)
Definition run (self : BridgeEventListener) (fuel : nat) : M W unit :=
  logger INFO (MsgStarting (source_bridge_address (l_config self))) ;;;
  last <~ gets last_processed_block ;;
  logger INFO (MsgInitialBlock last) ;;;
  while_true fuel (cycle self).

(** Python's truth value of [os.getenv(var)]: [None] and the empty string
    are false. *)
Definition truthy (v : option string) : bool :=
  match v with
  | None => false
  | Some EmptyString => false
  | Some (String _ _) => true
  end.

Definition required_vars : list string :=
  ["SOURCE_CHAIN_RPC"; "DESTINATION_CHAIN_RPC";
   "SOURCE_BRIDGE_ADDRESS"; "DESTINATION_BRIDGE_ADDRESS";
   "LISTENER_PRIVATE_KEY"].

(** [int(os.getenv(var, dflt))] *)
Definition getenv_int (environ : gmap string string) (var : string) (dflt : Z) : M W Z :=
  match environ !! var with
  | None => ret dflt
  | Some s => local (py_int ext s)
  end.

(** [load_config_from_env]; [environ] is the process environment after
    [load_dotenv()]. *)
Definition load_config_from_env (environ : gmap string string) : M W BridgeConfig :=
  for_each required_vars
    (fun var =>
       if truthy (environ !! var) then ret tt
       else raise (ValueError (String.append "Missing required environment variable: " var))) ;;;
  first <~ getenv_int environ "START_BLOCK" 0 ;;
  interval <~ getenv_int environ "POLL_INTERVAL_SECONDS" 15 ;;
  ret (mkBridgeConfig
         (default "" (environ !! "SOURCE_CHAIN_RPC"))
         (default "" (environ !! "DESTINATION_CHAIN_RPC"))
         (default "" (environ !! "SOURCE_BRIDGE_ADDRESS"))
         (default "" (environ !! "DESTINATION_BRIDGE_ADDRESS"))
         (default "" (environ !! "LISTENER_PRIVATE_KEY"))
         first interval).

(** The two [except] clauses of the entry point. *)
Definition main_handler (e : exn) : M W unit :=
  match e with
  | ValueError _ => logger ERROR (MsgConfigurationError e)
  | _ => logger CRITICAL (MsgCriticalInit e)
  end.

(** The [if __name__ == "__main__"] block, with the loop of [run] cut after
    [fuel] iterations. *)
Definition main (environ : gmap string string) (fuel : nat) : M W unit :=
  try_except
    (config <~ load_config_from_env environ ;;
     listener <~ BridgeEventListener_init config ;;
     run listener fuel)
    main_handler.

End Script.

(** The state a process starts in. *)
Definition initial_state {W} (w : W) : State W := mkState w [] [] ∅ 0.

(** The exit code of the interpreter: 0 when the script reaches its end, 1
    when an exception is not caught, none while the loop is running. *)
Definition exit_code {A} (r : Res A) : option Z :=
  match r with
  | Ok _ => Some 0
  | Raise _ => Some 1
  | Running => None
  end.

(** ** Observations on a run *)

(** What a computation added to the log and to the node calls. *)
Definition new_log {W} (st st' : State W) : list LogRecord :=
  drop (length (log st)) (log st').

Definition new_calls {W} (st st' : State W) : list Call :=
  drop (length (calls st)) (calls st').

(** [process_event] returns [None] on every path; how a dispatch ended is
    reported by the last record it logs. *)
Inductive Outcome := Relayed | AlreadyRelayed | Failed (e : exn).

Definition outcome_of_record (r : LogRecord) : option Outcome :=
  match level r, message r with
  | WARNING, MsgAlreadyProcessed _ => Some AlreadyRelayed
  | INFO, MsgSuccessfullyProcessed _ => Some Relayed
  | ERROR, MsgErrorProcessing _ e => Some (Failed e)
  | _, _ => None
  end.

Definition dispatch_outcome {W} (ext : Externals W) (self : BridgeEventHandler)
    (event : Event) (st : State W) : option Outcome :=
  match last (new_log st (snd (process_event ext self event st))) with
  | Some r => outcome_of_record r
  | None => None
  end.

(** The identifiers whose release was completed, oldest first. *)
Definition relayed_id (r : LogRecord) : option string :=
  match message r with
  | MsgSuccessfullyProcessed tx_id => Some tx_id
  | _ => None
  end.

Definition relayed_ids (l : list LogRecord) : list string := omap relayed_id l.

(** The identifiers [process_event] was entered with, oldest first: each
    entry logs either the duplicate warning or the new-event line. *)
Definition attempted_id (r : LogRecord) : option string :=
  match message r with
  | MsgAlreadyProcessed tx_id => Some tx_id
  | MsgProcessingNew tx_id => Some tx_id
  | _ => None
  end.

Definition attempted_ids (l : list LogRecord) : list string := omap attempted_id l.

(** The block ranges the event queries cover, oldest first. *)
Definition query_range (c : Call) : option (Z * Z) :=
  match call_op c with
  | OpCreateFilter _ from_block to_block => Some (from_block, to_block)
  | _ => None
  end.

Definition query_ranges (cs : list Call) : list (Z * Z) := omap query_range cs.

(** Number of blocks in an inclusive range. *)
Definition span (r : Z * Z) : Z := snd r - fst r + 1.

(** Does a call broadcast a transaction? *)
Definition is_broadcast (c : Call) : bool :=
  match call_op c with
  | OpSendRawTransaction _ => true
  | _ => false
  end.

(** The release calls handed to [build_transaction], oldest first. *)
Definition built_release (c : Call) : option ReleaseCall :=
  match call_op c with
  | OpBuildTransaction call _ => Some call
  | _ => None
  end.

Definition built_releases (cs : list Call) : list ReleaseCall := omap built_release cs.

(** ** A small concrete world

    One scripted instance of [Externals], used to run the script on concrete
    inputs: the source node reports the heads listed in [heads], one per
    call, and refuses the connection when none is left; an event query
    returns the events of [ledger] inside the queried range; the destination
    node refuses to build a release of a non-positive amount; signing fails
    for the key ["bad"]; sleeping moves [clock]. *)
Module Demo.

Record World := mkWorld {
  up : bool;
  heads : list Z;
  ledger : list Event;
  open_filter : Z * Z;
  clock : Z
}.

Definition demo_block_number (_ : string) (w : World) : Reply Z * World :=
  match heads w with
  | [] => (Throws (RequestsConnectionError "connection refused"), w)
  | h :: rest => (Returns h, mkWorld (up w) rest (ledger w) (open_filter w) (clock w))
  end.

Definition demo_create_filter (_ _ : string) (from_block to_block : Z) (w : World)
  : Reply Z * World :=
  (Returns 0, mkWorld (up w) (heads w) (ledger w) (from_block, to_block) (clock w)).

Definition in_range (r : Z * Z) (e : Event) : bool :=
  (fst r <=? blockNumber e) && (blockNumber e <=? snd r).

Definition demo_get_all_entries (_ : string) (_ : Z) (w : World)
  : Reply (list Event) * World :=
  (Returns (List.filter (in_range (open_filter w)) (ledger w)), w).

Definition demo_build_transaction (_ : string) (call : ReleaseCall) (p : TxPayload)
    (w : World) : Reply TxDict * World :=
  if rc_amount call <=? 0
  then (Throws (OtherException "cannot encode the call"), w)
  else (Returns (mkTxDict p (rc_contract call) (rc_sourceTransactionId call)), w).

Definition demo_from_key (key : string) : Reply string :=
  if String.eqb key "" then Throws (ValueError "empty key") else Returns "0xWallet".

Definition demo_sign_transaction (tx : TxDict) (key : string) : Reply SignedTx :=
  if String.eqb key "bad" then Throws (OtherException "cannot sign")
  else Returns (mkSignedTx (txd_data tx) (txd_data tx)).

(** [time.sleep] as CPython has it on a 64-bit Linux: a negative length is
    a [ValueError], a length of more than 9223372036 seconds does not fit
    the interpreter's clock type. *)
Definition demo_sleep (secs : Z) (w : World) : Reply unit * World :=
  if secs <? 0 then (Throws (ValueError "sleep length must be non-negative"), w)
  else if 9223372036 <? secs
  then (Throws (OtherException "timestamp too large to convert to C _PyTime_t"), w)
  else (Returns tt, mkWorld (up w) (heads w) (ledger w) (open_filter w) (clock w + secs)).

Fixpoint digits (s : string) (acc : Z) : option Z :=
  match s with
  | EmptyString => Some acc
  | String c rest =>
      let n := Z.of_nat (nat_of_ascii c) in
      if (48 <=? n) && (n <=? 57) then digits rest (10 * acc + (n - 48)) else None
  end.

Definition demo_int (s : string) : Reply Z :=
  let bad := Throws (ValueError "invalid literal for int()") in
  match s with
  | EmptyString => bad
  | String "-" rest =>
      match rest, digits rest 0 with
      | String _ _, Some z => Returns (- z)
      | _, _ => bad
      end
  | _ => match digits s 0 with Some z => Returns z | None => bad end
  end.

Definition ext : Externals World :=
  mkExternals World
    (fun _ w => (up w, w))
    (fun _ w => (Returns 1, w))
    demo_block_number
    demo_create_filter
    demo_get_all_entries
    (fun _ _ w => (Returns 7, w))
    (fun _ w => (Returns 1, w))
    demo_build_transaction
    Returns
    demo_from_key
    demo_sign_transaction
    demo_sleep
    demo_int.

Definition config : BridgeConfig :=
  mkBridgeConfig "http://source" "http://destination" "0xSourceBridge" "0xDestBridge"
                 "key" 10 15.

Definition handler : BridgeEventHandler :=
  mkBridgeEventHandler config (mkChainConnector "http://destination")
                       (mkContract "http://destination" "0xDestBridge").

Definition listener : BridgeEventListener :=
  mkBridgeEventListener config (mkChainConnector "http://source")
                        (mkChainConnector "http://destination") handler
                        (mkContract "http://source" "0xSourceBridge").

(** Three events at blocks 11, 13 and 14 of the source ledger; the one at
    block 13 carries amount 0, which the destination node refuses. *)
Definition event11 : Event := mkEvent (mkEventArgs [x01] "0xAlice" 5 "0xToken" 50) 11 0.
Definition event13 : Event := mkEvent (mkEventArgs [x02] "0xBob" 5 "0xToken" 0) 13 0.
Definition event14 : Event := mkEvent (mkEventArgs [x03] "0xCarol" 5 "0xToken" 20) 14 0.

Definition world0 : World := mkWorld true [15; 15] [event11; event13; event14] (0, 0) 0.

(** A state of the listener with watermark 10 and nothing relayed yet. *)
Definition state0 : State World := mkState world0 [] [] ∅ 10.

(** A complete environment, and one in which a required variable is not
    set. *)
Definition environ_full : gmap string string :=
  list_to_map
    [("SOURCE_CHAIN_RPC", "http://source"); ("DESTINATION_CHAIN_RPC", "http://destination");
     ("SOURCE_BRIDGE_ADDRESS", "0xSourceBridge");
     ("DESTINATION_BRIDGE_ADDRESS", "0xDestBridge");
     ("LISTENER_PRIVATE_KEY", "key"); ("START_BLOCK", "10")].

Definition environ_no_key : gmap string string := delete "LISTENER_PRIVATE_KEY" environ_full.

(** The listener after the first event has been relayed. *)
Definition state_relayed : State World := mkState world0 [] [] {[ "01" ]} 15.

(** A world in which no node can be reached. *)
Definition world_down : World := mkWorld false [] [] (0, 0) 0.

(** A world whose source node reports the given head. *)
Definition world_at (head : Z) : World := mkWorld true [head] [] (0, 0) 0.

(** A listener started at block 100 with a one-second poll interval, under
    a source node whose head is 105 and whose ledger holds one event, at
    block 103, with identifier [0xAA] and amount 50. *)
Definition environ_100 : gmap string string :=
  <["START_BLOCK" := "100"]> (<["POLL_INTERVAL_SECONDS" := "1"]> environ_full).

(** A complete environment with a negative poll interval. *)
Definition environ_negative : gmap string string :=
  <["POLL_INTERVAL_SECONDS" := "-1"]> environ_full.

Definition event103 : Event := mkEvent (mkEventArgs [xaa] "0xDave" 5 "0xToken" 50) 103 0.

Definition world_105 : World := mkWorld true [105; 105] [event103] (0, 0) 0.

(** A complete environment whose key cannot sign, one whose poll interval
    is ten thousand million seconds, and a source ledger on which the
    identifier of block 11 is emitted a second time at block 12. *)
Definition environ_bad_key : gmap string string :=
  <["LISTENER_PRIVATE_KEY" := "bad"]> environ_full.

Definition environ_huge_interval : gmap string string :=
  <["POLL_INTERVAL_SECONDS" := "10000000000"]> environ_full.

Definition event12 : Event := mkEvent (mkEventArgs [x01] "0xAlice" 5 "0xToken" 50) 12 0.

Definition world_twice : World := mkWorld true [15] [event11; event12] (0, 0) 0.

(** An environment in which two required variables are missing. *)
Definition environ_two_missing : gmap string string :=
  delete "DESTINATION_CHAIN_RPC" environ_no_key.

(** A complete environment without the two optional variables, and one
    whose start block is not a number. *)
Definition environ_defaults : gmap string string := delete "START_BLOCK" environ_full.

Definition environ_bad_start : gmap string string :=
  <["START_BLOCK" := "latest"]> environ_full.

(** The listener at watermark 15 under a source node that reports head 12,
    and at watermark 10 under one that reports head 20 over an empty
    ledger or cannot be reached. *)
Definition state_behind : State World := mkState (world_at 12) [] [] ∅ 15.
Definition state_quiet : State World := mkState (world_at 20) [] [] ∅ 10.
Definition state_cut_off : State World := mkState world_down [] [] ∅ 10.

End Demo.

(** ** Vocabulary for the properties *)

(** The identifier [process_event] computes for an event. *)
Definition tx_id_of (event : Event) : string := hex (transactionId (args event)).

(** The event with another destination chain selector. *)
Definition with_destinationChainId (event : Event) (chain : Z) : Event :=
  mkEvent (mkEventArgs (transactionId (args event)) (sender (args event)) chain
                       (token (args event)) (amount (args event)))
          (blockNumber event) (logIndex event).

(** The release call an event gives rise to at a handler: identifier,
    sender (the recipient on the destination ledger), token and amount are
    forwarded as they are. *)
Definition release_action (self : BridgeEventHandler) (event : Event) : ReleaseCall :=
  releaseTokens (dest_bridge_contract self) (transactionId (args event))
                (sender (args event)) (token (args event)) (amount (args event)).

(** The outcomes reported in a piece of log, oldest first. *)
Definition outcomes (l : list LogRecord) : list Outcome := omap outcome_of_record l.

(** [transforms R m]: every run of [m] takes a state to one related to it
    by [R], whether [m] returns, raises or is still looping. *)
Definition transforms {W A} (R : State W -> State W -> Prop) (m : M W A) : Prop :=
  forall st, R st (snd (m st)).

(** An invariant of the state is kept. *)
Definition keeps {W} (I : State W -> Prop) : State W -> State W -> Prop :=
  fun st st' => I st -> I st'.

(** The watermark does not go down. *)
Definition watermark_le {W} : State W -> State W -> Prop :=
  fun st st' => last_processed_block st <= last_processed_block st'.

(** No call in the list is a broadcast. *)
Definition no_broadcast (cs : list Call) : Prop :=
  Forall (fun c => is_broadcast c = false) cs.

Definition never_broadcast {W} (st : State W) : Prop := no_broadcast (calls st).

(** No record of the log reports a completed release. *)
Definition nothing_relayed {W} (st : State W) : Prop := relayed_ids (log st) = [].

(** No identifier was reported as released twice, and every identifier
    reported as released is in [processed_transactions]. *)
Definition relay_invariant {W} (st : State W) : Prop :=
  NoDup (relayed_ids (log st)) /\
  forall tx_id, tx_id ∈ relayed_ids (log st) -> tx_id ∈ processed_transactions st.

(** The lines a release writes are neither attempts nor outcomes, and the
    calls it makes are neither event queries nor broadcasts. *)
Definition release_lines (dl : list LogRecord) : Prop :=
  Forall (fun r => relayed_id r = None /\ attempted_id r = None /\
                   outcome_of_record r = None) dl.

Definition release_calls (dc : list Call) : Prop :=
  Forall (fun c => is_broadcast c = false /\ query_range c = None) dc.

(** What the source node answers during a cycle started in a given state:
    the head query fails, or the head is not above the watermark, or the
    event query over the new blocks fails (when the filter is created or
    when its entries are fetched), or it returns a list of events. *)
Inductive NodeAnswers :=
| HeadFailed (e : exn)
| NothingNew (head : Z)
| QueryFailed (head : Z) (e : exn)
| Scanned (head : Z) (events : list Event).

Definition node_answers {W} (ext : Externals W) (self : BridgeEventListener)
    (st : State W) : NodeAnswers :=
  let url := rpc_url (source_connector self) in
  let address := contract_address (source_bridge_contract self) in
  match block_number ext url (world st) with
  | (Throws e, _) => HeadFailed e
  | (Returns head, w1) =>
      if last_processed_block st <? head then
        match create_filter ext url address (last_processed_block st + 1) head w1 with
        | (Throws e, _) => QueryFailed head e
        | (Returns event_filter, w2) =>
            match get_all_entries ext url event_filter w2 with
            | (Throws e, _) => QueryFailed head e
            | (Returns events, _) => Scanned head events
            end
        end
      else NothingNew head
  end.

(** A required variable is missing from the environment: not set, or set
    to the empty string. *)
Definition missing_required (environ : gmap string string) : Prop :=
  exists var, In var required_vars /\ truthy (environ !! var) = false.

(** Once an identifier is recorded it stays recorded, and no release for
    it is handed to [build_transaction]. *)
Definition gate_stays {W} (id : list byte) : State W -> State W -> Prop :=
  fun st st' =>
    hex id ∈ processed_transactions st ->
    hex id ∈ processed_transactions st' /\
    exists dc,
      calls st' = calls st ++ dc /\
      Forall (fun call => rc_sourceTransactionId call <> id) (built_releases dc).

(** [time.sleep] returns for this length, whenever it is called. *)
Definition sleep_returns {W} (ext : Externals W) (secs : Z) : Prop :=
  forall w, fst (time_sleep ext secs w) = Returns tt.

(** The first required variable, in the order the loader checks them, that
    is missing from the environment. *)
Definition first_missing (environ : gmap string string) : option string :=
  List.find (fun var => negb (truthy (environ !! var))) required_vars.

(** The text of the error the loader raises for a missing variable. *)
Definition missing_message (var : string) : string :=
  String.append "Missing required environment variable: " var.

(** What [int(os.getenv(var, dflt))] evaluates to. *)
Definition int_reply {W} (ext : Externals W) (environ : gmap string string)
    (var : string) (dflt : Z) : Reply Z :=
  match environ !! var with
  | None => Returns dflt
  | Some s => py_int ext s
  end.

(** The record the loop's handler writes for an exception. *)
Definition loop_error_record (self : BridgeEventListener) (e : exn) : LogRecord :=
  match e with
  | RequestsConnectionError _ =>
      mkLog ERROR (MsgRpcConnectionError e (poll_interval_seconds (l_config self)))
  | _ => mkLog ERROR (MsgUnexpected e)
  end.

(** The set of recorded identifiers does not lose an element. *)
Definition index_grows {W} : State W -> State W -> Prop :=
  fun st st' => processed_transactions st ⊆ processed_transactions st'.

(** Every recorded identifier was reported as released. *)
Definition recorded_were_relayed {W} (st : State W) : Prop :=
  forall tx_id, tx_id ∈ processed_transactions st -> tx_id ∈ relayed_ids (log st).

(** The node calls the constructor of the listener makes when it returns:
    both connections are checked and their chain identifiers read, and the
    head of the source ledger is read when no start block is configured. *)
Definition startup_calls (config : BridgeConfig) : list Call :=
  [mkCall (source_chain_rpc config) OpIsConnected;
   mkCall (source_chain_rpc config) OpChainId;
   mkCall (destination_chain_rpc config) OpIsConnected;
   mkCall (destination_chain_rpc config) OpChainId]
  ++ (if start_block config =? 0
      then [mkCall (source_chain_rpc config) OpBlockNumber]
      else []).

(** * Properties *)

(** ** Rules for the monad *)

Section Rules.

Context {W : Type} (R : State W -> State W -> Prop) `{!PreOrder R}.

Lemma transforms_ret {A} (a : A) : transforms R (ret a).
Proof. intros st. reflexivity. Qed.

Lemma transforms_raise {A} (e : exn) : transforms R (@raise W A e).
Proof. intros st. reflexivity. Qed.

Lemma transforms_gets {A} (f : State W -> A) : transforms R (gets f).
Proof. intros st. reflexivity. Qed.

Lemma transforms_local {A} (r : Reply A) : transforms R (local r).
Proof. intros st. unfold local. destruct r; reflexivity. Qed.

Lemma transforms_bind {A B} (m : M W A) (k : A -> M W B) :
  transforms R m -> (forall a, transforms R (k a)) -> transforms R (bind m k).
Proof.
  intros Hm Hk st. unfold bind. specialize (Hm st).
  destruct (m st) as [[a | e |] st1]; simpl in *; auto.
  etransitivity; [exact Hm | apply Hk].
Qed.

Lemma transforms_try_except {A} (body : M W A) (handler : exn -> M W A) :
  transforms R body -> (forall e, transforms R (handler e)) ->
  transforms R (try_except body handler).
Proof.
  intros Hb Hh st. unfold try_except. specialize (Hb st).
  destruct (body st) as [[a | e |] st1]; simpl in *; auto.
  etransitivity; [exact Hb | apply Hh].
Qed.

Lemma transforms_for_each {A} (xs : list A) (body : A -> M W unit) :
  (forall x, transforms R (body x)) -> transforms R (for_each xs body).
Proof.
  intros Hb. induction xs as [| x rest IH]; simpl.
  - apply transforms_ret.
  - apply transforms_bind; auto.
Qed.

Lemma transforms_while_true {A} (fuel : nat) (body : M W unit) :
  transforms R body -> transforms R (@while_true W A fuel body).
Proof.
  intros Hb. induction fuel as [| n IH]; simpl.
  - intros st. reflexivity.
  - apply transforms_bind; auto.
Qed.

End Rules.

#[local] Instance keeps_preorder {W} (I : State W -> Prop) : PreOrder (keeps I).
Proof. split; unfold keeps; [intros st; auto | intros s1 s2 s3; auto]. Qed.

#[local] Instance watermark_le_preorder {W} : PreOrder (@watermark_le W).
Proof. split; unfold watermark_le; [intros st; lia | intros s1 s2 s3; lia]. Qed.

Create HintDb transforms.

(** Walks through a computation along its structure; what is left are its
    primitive steps, handed to the hint database. *)
Ltac structural :=
  repeat first
    [ solve [auto with transforms]
    | apply transforms_ret | apply transforms_raise | apply transforms_gets
    | apply transforms_local | apply transforms_bind | apply transforms_try_except
    | apply transforms_for_each | apply transforms_while_true
    | match goal with
      | |- PreOrder _ => apply _
      | |- forall _, _ => intro
      | |- transforms _ (if ?c then _ else _) => destruct c
      | |- transforms _ (match ?x with _ => _ end) => destruct x
      end ];
  auto with transforms.

Ltac grow_list :=
  first [ reflexivity
        | symmetry; apply app_nil_r
        | rewrite <- ?app_assoc; reflexivity ].

(** Closes the conjuncts of one path through the release. *)
Ltac release_case :=
  simpl;
  first [ grow_list
        | done
        | left; reflexivity
        | right; reflexivity
        | intros [=]
        | intros _; split; [reflexivity | simpl; tauto]
        | solve [repeat constructor]
        | solve [simpl; tauto] ].

(** ** The handler *)

Section Handler.

Context {W : Type} (ext : Externals W).

Lemma new_log_app (st st' : State W) (dl : list LogRecord) :
  log st' = log st ++ dl -> new_log st st' = dl.
Proof. intros H. unfold new_log. rewrite H. apply drop_app_length. Qed.

Lemma new_calls_app (st st' : State W) (dc : list Call) :
  calls st' = calls st ++ dc -> new_calls st st' = dc.
Proof. intros H. unfold new_calls. rewrite H. apply drop_app_length. Qed.

(** What [_simulate_release_tokens] does to the state, on every path: it
    returns or raises, appends to the log and to the calls, and touches
    neither attribute. *)
Lemma release_spec (self : BridgeEventHandler) (event : Event) (st : State W) :
  exists r st' dl dc,
    _simulate_release_tokens ext self event st = (r, st') /\
    r <> Running /\
    log st' = log st ++ dl /\ release_lines dl /\
    calls st' = calls st ++ dc /\ release_calls dc /\
    processed_transactions st' = processed_transactions st /\
    last_processed_block st' = last_processed_block st /\
    (built_releases dc = [] \/ built_releases dc = [release_action self event]) /\
    (r = Ok tt ->
     built_releases dc = [release_action self event] /\
     In (mkLog INFO MsgSimWouldHaveSent) dl).
Proof.
  unfold _simulate_release_tokens, bind, try_except, rpc, local, logger, raise. simpl.
  destruct (from_key ext _) as [wallet | e]; simpl.
  2: { do 4 eexists. repeat split; release_case. }
  destruct (get_transaction_count ext _ _ _) as [[nonce | e] w1]; simpl.
  2: { do 4 eexists. repeat split; release_case. }
  destruct (gas_price ext _ _) as [[price | e] w2]; simpl.
  2: { do 4 eexists. repeat split; release_case. }
  destruct (build_transaction ext _ _ _ _) as [[tx | e] w3]; simpl.
  2: { do 4 eexists. repeat split; release_case. }
  destruct (sign_transaction ext _ _) as [signed | e]; simpl.
  2: { do 4 eexists. repeat split; release_case. }
  do 4 eexists. repeat split; release_case.
Qed.

(** How a release ends, read off the replies of the five library calls it
    makes, in the order it makes them: the first one that throws decides. *)
Lemma release_result (self : BridgeEventHandler) (event : Event) (st : State W) :
  let url := rpc_url (h_dest_connector self) in
  let key := listener_private_key (h_config self) in
  fst (_simulate_release_tokens ext self event st) =
    match from_key ext key with
    | Throws e => Raise e
    | Returns wallet =>
        match get_transaction_count ext url wallet (world st) with
        | (Throws e, _) => Raise e
        | (Returns nonce, w1) =>
            match gas_price ext url w1 with
            | (Throws e, _) => Raise e
            | (Returns price, w2) =>
                match build_transaction ext url (release_action self event)
                        (mkTxPayload wallet nonce 200000 price) w2 with
                | (Throws e, _) => Raise e
                | (Returns tx, _) =>
                    match sign_transaction ext tx key with
                    | Throws e => Raise e
                    | Returns _ => Ok tt
                    end
                end
            end
        end
    end.
Proof.
  unfold _simulate_release_tokens, release_action, bind, try_except, rpc, local,
    logger, raise.
  simpl.
  destruct (from_key ext _) as [wallet | e]; simpl; [| reflexivity].
  destruct (get_transaction_count ext _ _ _) as [[nonce | e] w1]; simpl; [| reflexivity].
  destruct (gas_price ext _ _) as [[price | e] w2]; simpl; [| reflexivity].
  destruct (build_transaction ext _ _ _ _) as [[tx | e] w3]; simpl; [| reflexivity].
  destruct (sign_transaction ext _ _) as [signed | e]; reflexivity.
Qed.

Lemma omap_all_none {A B} (f : A -> option B) (l : list A) :
  Forall (fun x => f x = None) l -> omap f l = [].
Proof.
  induction 1 as [| x l Hx _ IH]; simpl; [done |]. by rewrite Hx.
Qed.

Lemma release_lines_relayed (dl : list LogRecord) :
  release_lines dl -> relayed_ids dl = [].
Proof.
  intros H. apply omap_all_none. eapply Forall_impl; [exact H |].
  intros r (H1 & H2 & H3). exact H1.
Qed.

Lemma release_lines_attempted (dl : list LogRecord) :
  release_lines dl -> attempted_ids dl = [].
Proof.
  intros H. apply omap_all_none. eapply Forall_impl; [exact H |].
  intros r (H1 & H2 & H3). exact H2.
Qed.

Lemma release_lines_outcomes (dl : list LogRecord) :
  release_lines dl -> outcomes dl = [].
Proof.
  intros H. apply omap_all_none. eapply Forall_impl; [exact H |].
  intros r (H1 & H2 & H3). exact H3.
Qed.

Lemma release_calls_no_broadcast (dc : list Call) :
  release_calls dc -> no_broadcast dc.
Proof.
  intros H. eapply Forall_impl; [exact H |]. intros c (H1 & H2). exact H1.
Qed.

Lemma release_calls_no_query (dc : list Call) :
  release_calls dc -> query_ranges dc = [].
Proof.
  intros H. apply omap_all_none. eapply Forall_impl; [exact H |].
  intros c (H1 & H2). exact H2.
Qed.

(** The duplicate path: one warning, nothing else. *)
Lemma process_event_duplicate (self : BridgeEventHandler) (event : Event) (st : State W) :
  tx_id_of event ∈ processed_transactions st ->
  process_event ext self event st =
    (Ok tt, mkState (world st)
                    (log st ++ [mkLog WARNING (MsgAlreadyProcessed (tx_id_of event))])
                    (calls st) (processed_transactions st) (last_processed_block st)).
Proof.
  intros Hin. unfold process_event, try_except, bind, gets. simpl.
  fold (tx_id_of event). destruct (decide _) as [_ | Hn]; [done | contradiction].
Qed.

(** The other path: the release is run right after the new-event line; if it
    returns, the identifier is recorded and success is logged; if it raises,
    the error is logged and nothing is recorded. *)
Lemma process_event_new (self : BridgeEventHandler) (event : Event) (st : State W) :
  tx_id_of event ∉ processed_transactions st ->
  let st0 := snd (logger INFO (MsgProcessingNew (tx_id_of event)) st) in
  match _simulate_release_tokens ext self event st0 with
  | (Ok _, st1) =>
      process_event ext self event st =
        (Ok tt, mkState (world st1)
                        (log st1 ++ [mkLog INFO (MsgSuccessfullyProcessed (tx_id_of event))])
                        (calls st1)
                        ({[tx_id_of event]} ∪ processed_transactions st1)
                        (last_processed_block st1))
  | (Raise e, st1) =>
      process_event ext self event st =
        (Ok tt, mkState (world st1)
                        (log st1 ++ [mkLog ERROR (MsgErrorProcessing event e)])
                        (calls st1) (processed_transactions st1)
                        (last_processed_block st1))
  | (Running, _) => False
  end.
Proof.
  intros Hnin st0.
  destruct (release_spec self event st0)
    as (r & st1 & dl & dc & Hrun & Hr & _).
  rewrite Hrun.
  unfold process_event, try_except, bind, gets. simpl.
  fold (tx_id_of event). destruct (decide _) as [Hin | _]; [contradiction |].
  unfold st0 in Hrun. simpl in Hrun. unfold logger at 1. simpl. rewrite Hrun.
  destruct r as [[] | e |]; simpl; [reflexivity | reflexivity | congruence].
Qed.

(** Every path of [process_event] in one statement. *)
Lemma process_event_summary (self : BridgeEventHandler) (event : Event) (st : State W) :
  exists st' dl dc o,
    process_event ext self event st = (Ok tt, st') /\
    log st' = log st ++ dl /\
    calls st' = calls st ++ dc /\
    release_calls dc /\
    last_processed_block st' = last_processed_block st /\
    attempted_ids dl = [tx_id_of event] /\
    outcomes dl = [o] /\
    dispatch_outcome ext self event st = Some o /\
    match o with
    | AlreadyRelayed =>
        tx_id_of event ∈ processed_transactions st /\
        processed_transactions st' = processed_transactions st /\
        dc = [] /\ world st' = world st /\ relayed_ids dl = []
    | Relayed =>
        (tx_id_of event ∉ processed_transactions st) /\
        processed_transactions st' = {[tx_id_of event]} ∪ processed_transactions st /\
        relayed_ids dl = [tx_id_of event] /\
        built_releases dc = [release_action self event] /\
        In (mkLog INFO MsgSimWouldHaveSent) dl
    | Failed _ =>
        (tx_id_of event ∉ processed_transactions st) /\
        processed_transactions st' = processed_transactions st /\
        relayed_ids dl = [] /\
        (built_releases dc = [] \/ built_releases dc = [release_action self event])
    end.
Proof.
  destruct (decide (tx_id_of event ∈ processed_transactions st)) as [Hin | Hnin].
  - pose proof (process_event_duplicate self event st Hin) as Hpe.
    eexists _, [_], [], AlreadyRelayed.
    unfold dispatch_outcome. rewrite Hpe. simpl.
    repeat split; try done.
    + by rewrite app_nil_r.
    + constructor.
    + unfold new_log. simpl. by rewrite drop_app_length.
  - pose proof (process_event_new self event st Hnin) as Hpe. simpl in Hpe.
    destruct (release_spec self event
                (snd (logger INFO (MsgProcessingNew (tx_id_of event)) st)))
      as (r & st1 & dl & dc & Hrun & Hr & Hlog & Hdl & Hcalls & Hdc & Hproc & Hlast
          & Hbuilt & Hok).
    simpl in Hrun, Hlog, Hcalls, Hproc, Hlast. rewrite Hrun in Hpe.
    assert (Hatt : forall r0,
               attempted_id r0 = None ->
               attempted_ids (mkLog INFO (MsgProcessingNew (tx_id_of event)) :: (dl ++ [r0]))
               = [tx_id_of event]).
    { intros r0 Hr0. unfold attempted_ids. simpl. rewrite omap_app.
      fold (attempted_ids dl). rewrite (release_lines_attempted dl Hdl).
      simpl. by rewrite Hr0. }
    assert (Hrel : forall r0,
               relayed_ids (mkLog INFO (MsgProcessingNew (tx_id_of event)) :: (dl ++ [r0]))
               = relayed_ids [r0]).
    { intros r0. unfold relayed_ids. simpl. rewrite omap_app.
      fold (relayed_ids dl). by rewrite (release_lines_relayed dl Hdl). }
    assert (Hout : forall r0,
               outcomes (mkLog INFO (MsgProcessingNew (tx_id_of event)) :: (dl ++ [r0]))
               = outcomes [r0]).
    { intros r0. unfold outcomes. simpl. rewrite omap_app.
      fold (outcomes dl). by rewrite (release_lines_outcomes dl Hdl). }
    destruct r as [[] | e |]; [| | done].
    + destruct (Hok eq_refl) as [Hb Hsim].
      eexists _, (mkLog INFO (MsgProcessingNew (tx_id_of event)) :: (dl ++ [_])), dc, Relayed.
      unfold dispatch_outcome. rewrite Hpe.
      cbn [fst snd world log calls processed_transactions last_processed_block].
      split; [reflexivity |].
      split; [rewrite Hlog, <- !app_assoc; reflexivity |].
      split; [exact Hcalls |].
      split; [exact Hdc |].
      split; [exact Hlast |].
      split; [by apply Hatt |].
      split; [by rewrite Hout |].
      split.
      { unfold new_log. simpl. rewrite Hlog, <- !app_assoc, drop_app_length.
        simpl. rewrite app_comm_cons, last_snoc. done. }
      split; [exact Hnin |].
      split; [by rewrite Hproc |].
      split; [by rewrite Hrel |].
      split; [exact Hb |].
      right. apply in_or_app. by left.
    + eexists _, (mkLog INFO (MsgProcessingNew (tx_id_of event)) :: (dl ++ [_])), dc, (Failed e).
      unfold dispatch_outcome. rewrite Hpe.
      cbn [fst snd world log calls processed_transactions last_processed_block].
      split; [reflexivity |].
      split; [rewrite Hlog, <- !app_assoc; reflexivity |].
      split; [exact Hcalls |].
      split; [exact Hdc |].
      split; [exact Hlast |].
      split; [by apply Hatt |].
      split; [by rewrite Hout |].
      split.
      { unfold new_log. simpl. rewrite Hlog, <- !app_assoc, drop_app_length.
        simpl. rewrite app_comm_cons, last_snoc. done. }
      split; [exact Hnin |].
      split; [exact Hproc |].
      split; [by rewrite Hrel |].
      exact Hbuilt.
Qed.

(** What a dispatch hands to [build_transaction]: at most one release call,
    the one the event gives rise to, and exactly that one when the dispatch
    ends as relayed. *)
Lemma dispatch_builds (self : BridgeEventHandler) (event : Event) (st : State W) :
  let st' := snd (process_event ext self event st) in
  (built_releases (new_calls st st') = [] \/
   built_releases (new_calls st st') = [release_action self event]) /\
  match dispatch_outcome ext self event st with
  | Some Relayed =>
      built_releases (new_calls st st') = [release_action self event] /\
      In (mkLog INFO MsgSimWouldHaveSent) (new_log st st')
  | _ => True
  end.
Proof.
  intros st'.
  destruct (process_event_summary self event st)
    as (s1 & dl & dc & o & Hpe & Hlog & Hcalls & _ & _ & _ & _ & -> & Hcase).
  assert (Hst' : st' = s1) by (unfold st'; by rewrite Hpe). rewrite Hst'.
  rewrite (new_calls_app st s1 dc Hcalls), (new_log_app st s1 dl Hlog).
  destruct o as [| | e].
  - destruct Hcase as (_ & _ & _ & Hb & Hsim). split; [by right | done].
  - destruct Hcase as (_ & _ & -> & _). split; [by left | done].
  - destruct Hcase as (_ & _ & _ & Hb). split; [exact Hb | done].
Qed.

End Handler.

(** ** The listener *)

Section Listener.

Context {W : Type} (ext : Externals W).

(** The [for] loop over the events of a scan: it always runs to its end,
    enters [process_event] once per event, in the order of the list, and
    each entry reports one outcome. *)
Lemma dispatch_all_summary (self : BridgeEventHandler) (events : list Event) (st : State W) :
  exists st' dl dc,
    for_each events (process_event ext self) st = (Ok tt, st') /\
    log st' = log st ++ dl /\
    calls st' = calls st ++ dc /\
    release_calls dc /\
    last_processed_block st' = last_processed_block st /\
    attempted_ids dl = map tx_id_of events /\
    length (outcomes dl) = length events /\
    processed_transactions st ⊆ processed_transactions st'.
Proof.
  revert st. induction events as [| event rest IH]; intros st; simpl.
  - exists st, [], []. unfold ret. repeat split; try done.
    + by rewrite app_nil_r.
    + by rewrite app_nil_r.
    + constructor.
  - destruct (process_event_summary ext self event st)
      as (st1 & dl1 & dc1 & o & Hpe & Hlog1 & Hcalls1 & Hdc1 & Hlast1 & Hatt1 & Hout1 & _ & Ho).
    destruct (IH st1)
      as (st2 & dl2 & dc2 & Hfe & Hlog2 & Hcalls2 & Hdc2 & Hlast2 & Hatt2 & Hout2 & Hsub2).
    exists st2, (dl1 ++ dl2), (dc1 ++ dc2).
    unfold bind. rewrite Hpe, Hfe.
    repeat split.
    + rewrite Hlog2, Hlog1. by rewrite app_assoc.
    + rewrite Hcalls2, Hcalls1. by rewrite app_assoc.
    + apply Forall_app. done.
    + congruence.
    + unfold attempted_ids in *. rewrite omap_app, Hatt1, Hatt2. done.
    + unfold outcomes in *. rewrite omap_app, length_app, Hout1, Hout2. done.
    + etransitivity; [| exact Hsub2].
      destruct o; destruct Ho as (_ & -> & _); set_solver.
Qed.


(** The guarded block of a cycle, case by case on the node's answers. *)
Lemma scan_and_dispatch_summary (self : BridgeEventListener) (st : State W) :
  exists r st' dl dc,
    scan_and_dispatch ext self st = (r, st') /\
    log st' = log st ++ dl /\
    calls st' = calls st ++ dc /\
    no_broadcast dc /\
    processed_transactions st ⊆ processed_transactions st' /\
    match node_answers ext self st with
    | HeadFailed e =>
        r = Raise e /\ last_processed_block st' = last_processed_block st /\
        query_ranges dc = [] /\ dl = []
    | NothingNew head =>
        r = Ok tt /\ head <= last_processed_block st /\
        last_processed_block st' = last_processed_block st /\
        query_ranges dc = [] /\ dl = []
    | QueryFailed head e =>
        r = Raise e /\ last_processed_block st < head /\
        last_processed_block st' = last_processed_block st /\
        query_ranges dc = [(last_processed_block st + 1, head)] /\
        attempted_ids dl = []
    | Scanned head events =>
        r = Ok tt /\ last_processed_block st < head /\
        last_processed_block st' = head /\
        query_ranges dc = [(last_processed_block st + 1, head)] /\
        attempted_ids dl = map tx_id_of events /\
        length (outcomes dl) = length events
    end.
Proof.
  unfold scan_and_dispatch, node_answers.
  unfold bind at 1. unfold rpc at 1.
  destruct (block_number ext _ (world st)) as [[head | e] w1]; simpl.
  2: { do 4 eexists. repeat split; simpl; try grow_list; try done.
       repeat constructor. }
  unfold bind at 1. unfold gets at 1. simpl.
  destruct (Z.ltb_spec (last_processed_block st) head) as [Hlt | Hge].
  2: { unfold ret. do 4 eexists. repeat split; simpl; try grow_list; try done.
       repeat constructor. }
  unfold bind at 1. unfold logger at 1. simpl.
  unfold bind at 1. unfold rpc at 1. simpl.
  destruct (create_filter ext _ _ _ _ w1) as [[event_filter | e] w2]; simpl.
  2: { do 4 eexists. repeat split; simpl; try grow_list; try done.
       repeat constructor. }
  unfold bind at 1. unfold rpc at 1. simpl.
  destruct (get_all_entries ext _ _ w2) as [[events | e] w3]; simpl.
  2: { do 4 eexists. repeat split; simpl; try grow_list; try done.
       repeat constructor. }
  destruct events as [| event rest].
  - unfold bind, logger, set_last_processed_block. simpl.
    do 4 eexists. repeat split; simpl; try grow_list; try done.
    repeat constructor.
  - unfold bind at 1. unfold bind at 1. unfold logger at 1.
    match goal with
    | |- context [for_each ?evs ?body ?s] =>
        destruct (dispatch_all_summary (event_handler self) evs s)
          as (st2 & dl & dc & Hfe & Hlog & Hcalls & Hdc & Hlast & Hatt & Hout & Hsub);
        rewrite Hfe
    end.
    simpl in Hlog, Hcalls, Hlast, Hsub.
    unfold set_last_processed_block. simpl.
    eexists _, _, (_ :: _ :: dl), (_ :: _ :: _ :: dc).
    split; [reflexivity |]. simpl.
    repeat split; try done.
    + rewrite Hlog, <- !app_assoc. reflexivity.
    + rewrite Hcalls, <- !app_assoc. reflexivity.
    + repeat constructor. by apply release_calls_no_broadcast.
    + unfold query_ranges. simpl. fold (query_ranges dc).
      by rewrite (release_calls_no_query dc Hdc).
    + exact Hatt.
    + exact Hout.
Qed.

(** The [for] loop threads the state: every dispatch starts in the state
    the previous one ended in. *)
Lemma dispatch_all_fold (self : BridgeEventHandler) (events : list Event) (st : State W) :
  for_each events (process_event ext self) st =
    (Ok tt, fold_left (fun s event => snd (process_event ext self event s)) events st).
Proof.
  revert st. induction events as [| event rest IH]; intros st; simpl.
  - reflexivity.
  - unfold bind.
    destruct (process_event_summary ext self event st) as (st1 & dl & dc & o & Hpe & _).
    rewrite Hpe. simpl. apply IH.
Qed.

(** Either [except] clause of the loop logs one error and returns. *)
Lemma loop_handler_spec (self : BridgeEventListener) (e : exn) (st : State W) :
  exists m,
    loop_handler self e st =
      (Ok tt, mkState (world st) (log st ++ [mkLog ERROR m]) (calls st)
                      (processed_transactions st) (last_processed_block st)) /\
    attempted_id (mkLog ERROR m) = None /\
    outcome_of_record (mkLog ERROR m) = None /\
    relayed_id (mkLog ERROR m) = None.
Proof.
  destruct e; eexists; (split; [reflexivity | done]).
Qed.

(** [time.sleep] touches neither the log, the calls nor the attributes, and
    the script's [sleep] returns when the library's does. *)
Lemma sleep_spec (secs : Z) (st : State W) :
  exists r st',
    sleep ext secs st = (r, st') /\
    r <> Running /\ (sleep_returns ext secs -> r = Ok tt) /\
    log st' = log st /\ calls st' = calls st /\
    processed_transactions st' = processed_transactions st /\
    last_processed_block st' = last_processed_block st.
Proof.
  unfold sleep, sleep_returns.
  destruct (time_sleep ext secs (world st)) as [[[] | e] w1] eqn:Hsleep.
  - do 2 eexists. repeat split; done.
  - do 2 eexists. repeat split; try done.
    intros Hret. specialize (Hret (world st)). rewrite Hsleep in Hret. discriminate.
Qed.

(** One iteration of the loop, case by case on the node's answers. *)
Lemma cycle_summary (self : BridgeEventListener) (st : State W) :
  exists r st' dl dc,
    cycle ext self st = (r, st') /\
    r <> Running /\
    (sleep_returns ext (poll_interval_seconds (l_config self)) -> r = Ok tt) /\
    log st' = log st ++ dl /\
    calls st' = calls st ++ dc /\
    no_broadcast dc /\
    processed_transactions st ⊆ processed_transactions st' /\
    match node_answers ext self st with
    | HeadFailed e =>
        last_processed_block st' = last_processed_block st /\
        query_ranges dc = [] /\ exists m, dl = [mkLog ERROR m]
    | NothingNew head =>
        head <= last_processed_block st /\
        last_processed_block st' = last_processed_block st /\
        query_ranges dc = [] /\ dl = []
    | QueryFailed head e =>
        last_processed_block st < head /\
        last_processed_block st' = last_processed_block st /\
        query_ranges dc = [(last_processed_block st + 1, head)] /\
        attempted_ids dl = [] /\ exists m, last dl = Some (mkLog ERROR m)
    | Scanned head events =>
        last_processed_block st < head /\
        last_processed_block st' = head /\
        query_ranges dc = [(last_processed_block st + 1, head)] /\
        attempted_ids dl = map tx_id_of events /\
        length (outcomes dl) = length events
    end.
Proof.
  destruct (scan_and_dispatch_summary self st)
    as (r1 & st1 & dl1 & dc1 & Hscan & Hlog1 & Hcalls1 & Hdc1 & Hsub1 & Hcase).
  unfold cycle, bind, try_except. rewrite Hscan.
  destruct (node_answers ext self st) as [e | head | head e | head events].
  - destruct Hcase as (-> & Hlast & Hq & ->).
    destruct (loop_handler_spec self e st1) as (m & -> & _).
    destruct (sleep_spec (poll_interval_seconds (l_config self))
                (mkState (world st1) (log st1 ++ [mkLog ERROR m]) (calls st1)
                         (processed_transactions st1) (last_processed_block st1)))
      as (r & st2 & -> & Hr & Hok & Hlog2 & Hcalls2 & Hproc2 & Hlast2).
    simpl in *. exists r, st2, [mkLog ERROR m], dc1.
    repeat split; try done; try congruence.
    + rewrite Hlog2, Hlog1, app_nil_r. done.
    + by rewrite Hproc2.
    + by eexists.
  - destruct Hcase as (-> & Hle & Hlast & Hq & ->).
    destruct (sleep_spec (poll_interval_seconds (l_config self)) st1)
      as (r & st2 & -> & Hr & Hok & Hlog2 & Hcalls2 & Hproc2 & Hlast2).
    exists r, st2, [], dc1.
    repeat split; try done; try congruence.
    by rewrite Hproc2.
  - destruct Hcase as (-> & Hlt & Hlast & Hq & Hatt).
    destruct (loop_handler_spec self e st1) as (m & -> & Hm & _).
    destruct (sleep_spec (poll_interval_seconds (l_config self))
                (mkState (world st1) (log st1 ++ [mkLog ERROR m]) (calls st1)
                         (processed_transactions st1) (last_processed_block st1)))
      as (r & st2 & -> & Hr & Hok & Hlog2 & Hcalls2 & Hproc2 & Hlast2).
    simpl in *. exists r, st2, (dl1 ++ [mkLog ERROR m]), dc1.
    repeat split; try done; try congruence.
    + rewrite Hlog2, Hlog1, app_assoc. done.
    + by rewrite Hproc2.
    + unfold attempted_ids in *. rewrite omap_app, Hatt. simpl. by rewrite Hm.
    + exists m. apply last_snoc.
  - destruct Hcase as (-> & Hlt & Hlast & Hq & Hatt & Hout).
    destruct (sleep_spec (poll_interval_seconds (l_config self)) st1)
      as (r & st2 & -> & Hr & Hok & Hlog2 & Hcalls2 & Hproc2 & Hlast2).
    exists r, st2, dl1, dc1.
    repeat split; try done; try congruence.
    by rewrite Hproc2.
Qed.

End Listener.

(** ** Invariants of a whole run *)

Section Invariants.

Context {W : Type} (ext : Externals W).

(** *** No broadcast *)

Lemma logger_never_broadcast (lv : Level) (m : Message) :
  transforms (keeps (@never_broadcast W)) (logger lv m).
Proof. intros st H. exact H. Qed.

Lemma rpc_never_broadcast {A} (url : string) (op : RpcOp) (f : W -> Reply A * W) :
  is_broadcast (mkCall url op) = false ->
  transforms (keeps never_broadcast) (rpc url op f).
Proof.
  intros Hop st H. unfold rpc. destruct (f (world st)) as [[a | e] w1];
    simpl; apply Forall_app; split; auto; repeat constructor; exact Hop.
Qed.

Lemma set_processed_never_broadcast (s : gset string) :
  transforms (keeps (@never_broadcast W)) (set_processed_transactions s).
Proof. intros st H. exact H. Qed.

Lemma set_last_never_broadcast (b : Z) :
  transforms (keeps (@never_broadcast W)) (set_last_processed_block b).
Proof. intros st H. exact H. Qed.

Lemma sleep_never_broadcast (secs : Z) :
  transforms (keeps never_broadcast) (sleep ext secs).
Proof.
  intros st H. unfold sleep.
  destruct (time_sleep ext secs (world st)) as [[[] | e] w1]; exact H.
Qed.

(** *** Nothing relayed before the loop *)

Lemma logger_nothing_relayed (lv : Level) (m : Message) :
  relayed_id (mkLog lv m) = None ->
  transforms (keeps (@nothing_relayed W)) (logger lv m).
Proof.
  intros Hm st H. unfold nothing_relayed, relayed_ids in *. simpl.
  rewrite omap_app, H. simpl. by rewrite Hm.
Qed.

Lemma rpc_nothing_relayed {A} (url : string) (op : RpcOp) (f : W -> Reply A * W) :
  transforms (keeps nothing_relayed) (rpc url op f).
Proof.
  intros st H. unfold rpc. destruct (f (world st)) as [[a | e] w1]; exact H.
Qed.

Lemma set_processed_nothing_relayed (s : gset string) :
  transforms (keeps (@nothing_relayed W)) (set_processed_transactions s).
Proof. intros st H. exact H. Qed.

Lemma set_last_nothing_relayed (b : Z) :
  transforms (keeps (@nothing_relayed W)) (set_last_processed_block b).
Proof. intros st H. exact H. Qed.

(** *** At most one completed release per identifier *)


Lemma logger_relay_invariant (lv : Level) (m : Message) :
  relayed_id (mkLog lv m) = None ->
  transforms (keeps (@relay_invariant W)) (logger lv m).
Proof.
  intros Hm st [Hnd Hin]. unfold relay_invariant, relayed_ids in *. simpl.
  rewrite omap_app. simpl. rewrite Hm, app_nil_r. done.
Qed.

Lemma rpc_relay_invariant {A} (url : string) (op : RpcOp) (f : W -> Reply A * W) :
  transforms (keeps relay_invariant) (rpc url op f).
Proof.
  intros st H. unfold rpc. destruct (f (world st)) as [[a | e] w1]; exact H.
Qed.

Lemma set_last_relay_invariant (b : Z) :
  transforms (keeps (@relay_invariant W)) (set_last_processed_block b).
Proof. intros st H. exact H. Qed.

Lemma sleep_relay_invariant (secs : Z) :
  transforms (keeps relay_invariant) (sleep ext secs).
Proof.
  intros st H. unfold sleep.
  destruct (time_sleep ext secs (world st)) as [[[] | e] w1]; exact H.
Qed.

(** A dispatch keeps the invariant: on the duplicate and on the failing
    path nothing is reported and nothing recorded; on the successful path
    the identifier reported was not in the set, hence not reported before,
    and it is recorded. *)
Lemma process_event_relay_invariant (self : BridgeEventHandler) (event : Event) :
  transforms (keeps relay_invariant) (process_event ext self event).
Proof.
  intros st [Hnd Hin].
  destruct (process_event_summary ext self event st)
    as (st' & dl & dc & o & -> & Hlog & _ & _ & _ & _ & _ & _ & Ho).
  simpl. unfold relay_invariant, relayed_ids in *. rewrite Hlog, omap_app.
  destruct o as [| | e].
  - destruct Ho as (Hnew & -> & -> & _). split.
    + apply NoDup_app. repeat split; [done | | apply NoDup_singleton].
      intros tx Hold Hnow. apply list_elem_of_singleton in Hnow as ->. auto.
    + intros tx Htx. apply elem_of_app in Htx as [Hold | Hnow]; [set_solver |].
      apply list_elem_of_singleton in Hnow as ->. set_solver.
  - destruct Ho as (_ & -> & _ & _ & ->). rewrite app_nil_r. done.
  - destruct Ho as (_ & -> & -> & _). rewrite app_nil_r. done.
Qed.

End Invariants.

#[local] Hint Resolve logger_never_broadcast set_processed_never_broadcast
  set_last_never_broadcast sleep_never_broadcast
  rpc_nothing_relayed set_processed_nothing_relayed set_last_nothing_relayed
  rpc_relay_invariant set_last_relay_invariant sleep_relay_invariant
  process_event_relay_invariant : transforms.

#[local] Hint Extern 1 (transforms (keeps never_broadcast) (rpc _ _ _)) =>
  (apply rpc_never_broadcast; reflexivity) : transforms.
#[local] Hint Extern 1 (transforms (keeps nothing_relayed) (logger _ _)) =>
  (apply logger_nothing_relayed; reflexivity) : transforms.
#[local] Hint Extern 1 (transforms (keeps relay_invariant) (logger _ _)) =>
  (apply logger_relay_invariant; reflexivity) : transforms.

Section WholeRun.

Context {W : Type} (ext : Externals W).

Lemma process_event_never_broadcast (self : BridgeEventHandler) (event : Event) :
  transforms (keeps never_broadcast) (process_event ext self event).
Proof. unfold process_event, _simulate_release_tokens. structural. Qed.

Lemma init_never_broadcast (config : BridgeConfig) :
  transforms (keeps never_broadcast) (BridgeEventListener_init ext config).
Proof.
  unfold BridgeEventListener_init, BridgeEventHandler_init, ChainConnector_init,
    get_contract.
  structural.
Qed.

Lemma run_never_broadcast (self : BridgeEventListener) (fuel : nat) :
  transforms (keeps never_broadcast) (run ext self fuel).
Proof.
  pose proof process_event_never_broadcast.
  unfold run, cycle, scan_and_dispatch, loop_handler. structural.
Qed.

Lemma main_never_broadcast (environ : gmap string string) (fuel : nat) :
  transforms (keeps never_broadcast) (main ext environ fuel).
Proof.
  pose proof init_never_broadcast. pose proof run_never_broadcast.
  unfold main, load_config_from_env, getenv_int, main_handler. structural.
Qed.

(** The relay invariant through the loop. *)
Lemma run_relay_invariant (self : BridgeEventListener) (fuel : nat) :
  transforms (keeps relay_invariant) (run ext self fuel).
Proof. unfold run, cycle, scan_and_dispatch, loop_handler. structural. Qed.

(** Startup reports no release. *)
Lemma load_config_nothing_relayed (environ : gmap string string) :
  transforms (keeps nothing_relayed) (load_config_from_env ext environ).
Proof. unfold load_config_from_env, getenv_int. structural. Qed.

Lemma init_nothing_relayed (config : BridgeConfig) :
  transforms (keeps nothing_relayed) (BridgeEventListener_init ext config).
Proof.
  unfold BridgeEventListener_init, BridgeEventHandler_init, ChainConnector_init,
    get_contract.
  structural.
Qed.

Lemma nothing_relayed_invariant (st : State W) :
  nothing_relayed st -> relay_invariant st.
Proof.
  unfold nothing_relayed, relay_invariant. intros ->. split.
  - apply NoDup_nil_2.
  - intros tx Htx. by apply elem_of_nil in Htx.
Qed.

Lemma main_handler_relay_invariant (e : exn) :
  transforms (keeps (@relay_invariant W)) (main_handler e).
Proof. unfold main_handler. structural. Qed.

Lemma main_relay_invariant (environ : gmap string string) (fuel : nat) (st : State W) :
  nothing_relayed st -> relay_invariant (snd (main ext environ fuel st)).
Proof.
  intros Hst.
  pose proof (load_config_nothing_relayed environ st Hst) as Hload.
  unfold main, try_except, bind.
  destruct (load_config_from_env ext environ st) as [[config | e |] st1]; simpl in Hload.
  - pose proof (init_nothing_relayed config st1 Hload) as Hinit.
    destruct (BridgeEventListener_init ext config st1) as [[listener | e |] st2];
      simpl in Hinit; apply nothing_relayed_invariant in Hinit.
    + pose proof (run_relay_invariant listener fuel st2 Hinit) as Hrun.
      destruct (run ext listener fuel st2) as [[[] | e |] st3]; simpl in Hrun; simpl; auto.
      by apply main_handler_relay_invariant.
    + by apply main_handler_relay_invariant.
    + done.
  - apply main_handler_relay_invariant. by apply nothing_relayed_invariant.
  - by apply nothing_relayed_invariant.
Qed.

(** The watermark through the loop. *)
Lemma cycle_watermark (self : BridgeEventListener) (st : State W) :
  last_processed_block (snd (cycle ext self st)) = last_processed_block st \/
  last_processed_block st < last_processed_block (snd (cycle ext self st)).
Proof.
  destruct (cycle_summary ext self st)
    as (r & st' & dl & dc & -> & _ & _ & _ & _ & _ & _ & Hcase). simpl.
  destruct (node_answers ext self st).
  - left. tauto.
  - left. tauto.
  - left. tauto.
  - right. destruct Hcase as (Hlt & -> & _). exact Hlt.
Qed.

Lemma cycle_watermark_le (self : BridgeEventListener) :
  transforms watermark_le (cycle ext self).
Proof. intros st. unfold watermark_le. destruct (cycle_watermark self st); lia. Qed.

Lemma logger_watermark_le (lv : Level) (m : Message) :
  transforms (@watermark_le W) (logger lv m).
Proof. intros st. unfold watermark_le. simpl. lia. Qed.

Lemma run_watermark_le (self : BridgeEventListener) (fuel : nat) :
  transforms watermark_le (run ext self fuel).
Proof.
  pose proof cycle_watermark_le. pose proof logger_watermark_le.
  unfold run. structural.
Qed.

(** The loop is never left when the sleep between two cycles returns. *)
Lemma loop_running (self : BridgeEventListener) (fuel : nat) (st : State W) :
  sleep_returns ext (poll_interval_seconds (l_config self)) ->
  fst (@while_true W unit fuel (cycle ext self) st) = Running.
Proof.
  intros Hpoll. revert st. induction fuel as [| n IH]; intros st; simpl.
  - reflexivity.
  - unfold bind.
    destruct (cycle_summary ext self st)
      as (r & st' & dl & dc & -> & _ & Hok & _).
    rewrite (Hok Hpoll). apply IH.
Qed.

Lemma run_running (self : BridgeEventListener) (fuel : nat) (st : State W) :
  sleep_returns ext (poll_interval_seconds (l_config self)) ->
  fst (run ext self fuel st) = Running.
Proof.
  intros Hpoll. unfold run, bind, logger, gets. simpl. by apply loop_running.
Qed.

(** The listener built by the constructor holds the configuration it was
    given. *)
Lemma init_config (config : BridgeConfig) (st st' : State W) (l : BridgeEventListener) :
  BridgeEventListener_init ext config st = (Ok l, st') -> l_config l = config.
Proof.
  unfold BridgeEventListener_init, bind.
  destruct (ChainConnector_init ext _ st) as [[src | e |] s1]; [| done | done].
  destruct (ChainConnector_init ext _ s1) as [[dst | e |] s2]; [| done | done].
  destruct (BridgeEventHandler_init ext config dst s2) as [[h | e |] s3]; [| done | done].
  destruct (get_contract ext src _ s3) as [[c | e |] s4]; [| done | done].
  match goal with
  | |- context [if ?b then _ else _] => destruct b
  end.
  - destruct (rpc _ _ _ s4) as [[b | e |] s5]; [| done | done].
    unfold set_last_processed_block, ret. simpl. intros [= <- _]. reflexivity.
  - unfold set_last_processed_block, ret. simpl. intros [= <- _]. reflexivity.
Qed.

(** A missing required variable makes the check loop raise [ValueError]
    without touching the state. *)
Lemma check_required_missing (environ : gmap string string) (vars : list string)
    (st : State W) :
  (exists var, In var vars /\ truthy (environ !! var) = false) ->
  exists msg,
    for_each vars
      (fun var =>
         if truthy (environ !! var) then ret tt
         else raise (ValueError
                       (String.append "Missing required environment variable: " var))) st
    = (Raise (ValueError msg), st).
Proof.
  induction vars as [| v rest IH]; intros (var & Hin & Hmiss).
  - destruct Hin.
  - simpl. unfold bind. destruct (truthy (environ !! v)) eqn:Hv.
    + unfold ret. apply IH. destruct Hin as [-> | Hin]; [congruence |]. eauto.
    + unfold raise. eauto.
Qed.

End WholeRun.

(** ** The gate, once closed, stays closed *)

#[local] Instance gate_stays_preorder {W} (id : list byte) : PreOrder (@gate_stays W id).
Proof.
  split; unfold gate_stays.
  - intros st Hin. split; [exact Hin |]. exists []. split; [by rewrite app_nil_r | constructor].
  - intros s1 s2 s3 H12 H23 Hin.
    destruct (H12 Hin) as (Hin2 & dc1 & Hc1 & Hb1).
    destruct (H23 Hin2) as (Hin3 & dc2 & Hc2 & Hb2).
    split; [exact Hin3 |]. exists (dc1 ++ dc2). split.
    + rewrite Hc2, Hc1. by rewrite app_assoc.
    + unfold built_releases in *. rewrite omap_app. by apply Forall_app.
Qed.

Section Gate.

Context {W : Type} (ext : Externals W) (id : list byte).

Lemma quiet_gate_stays (st st' : State W) :
  processed_transactions st' = processed_transactions st ->
  calls st' = calls st ->
  gate_stays id st st'.
Proof.
  intros Hproc Hcalls Hin. rewrite Hproc, Hcalls. split; [exact Hin |].
  exists []. split; [by rewrite app_nil_r | constructor].
Qed.

Lemma logger_gate_stays (lv : Level) (m : Message) :
  transforms (gate_stays id) (@logger W lv m).
Proof. intros st. by apply quiet_gate_stays. Qed.

Lemma set_last_gate_stays (b : Z) :
  transforms (gate_stays id) (@set_last_processed_block W b).
Proof. intros st. by apply quiet_gate_stays. Qed.

Lemma sleep_gate_stays (secs : Z) : transforms (gate_stays id) (sleep ext secs).
Proof.
  intros st. unfold sleep.
  destruct (time_sleep ext secs (world st)) as [[[] | e] w1]; by apply quiet_gate_stays.
Qed.

Lemma rpc_gate_stays {A} (url : string) (op : RpcOp) (f : W -> Reply A * W) :
  built_release (mkCall url op) = None ->
  transforms (gate_stays id) (rpc url op f).
Proof.
  intros Hop st Hin. unfold rpc.
  destruct (f (world st)) as [[a | e] w1]; simpl;
    (split; [exact Hin |]; exists [mkCall url op]; split; [reflexivity |];
     unfold built_releases; simpl; rewrite Hop; constructor).
Qed.

(** A dispatch builds a release for its own identifier only, and only when
    that identifier is not recorded. *)
Lemma process_event_gate_stays (self : BridgeEventHandler) (event : Event) :
  transforms (gate_stays id) (process_event ext self event).
Proof.
  intros st Hin.
  destruct (process_event_summary ext self event st)
    as (st' & dl & dc & o & Hpe & _ & Hcalls & _ & _ & _ & _ & _ & Hcase).
  rewrite Hpe. simpl.
  assert (Hown : tx_id_of event ∉ processed_transactions st ->
                 rc_sourceTransactionId (release_action self event) <> id).
  { intros Hnew Heq. apply Hnew. unfold tx_id_of. simpl in Heq. by rewrite Heq. }
  destruct o as [| | e].
  - destruct Hcase as (Hnew & Hset & _ & Hbuilt & _). split.
    + rewrite Hset. by apply elem_of_union_r.
    + exists dc. split; [exact Hcalls |]. rewrite Hbuilt. repeat constructor. by apply Hown.
  - destruct Hcase as (_ & Hset & -> & _). split; [by rewrite Hset |].
    exists []. split; [exact Hcalls | constructor].
  - destruct Hcase as (Hnew & Hset & _ & Hbuilt). split; [by rewrite Hset |].
    exists dc. split; [exact Hcalls |].
    destruct Hbuilt as [-> | ->]; repeat constructor. by apply Hown.
Qed.

End Gate.

#[local] Hint Resolve logger_gate_stays set_last_gate_stays sleep_gate_stays
  process_event_gate_stays : transforms.
#[local] Hint Extern 1 (transforms (gate_stays _) (rpc _ _ _)) =>
  (apply rpc_gate_stays; reflexivity) : transforms.

Section GateOverRun.

Context {W : Type} (ext : Externals W).

Lemma run_gate_stays (id : list byte) (self : BridgeEventListener) (fuel : nat) :
  transforms (gate_stays id) (run ext self fuel).
Proof. unfold run, cycle, scan_and_dispatch, loop_handler. structural. Qed.

End GateOverRun.

(** * The claims *)

(** C1, as the script has it - at most one completed release per
    identifier.  (1) The duplicate gate: when the
    identifier of an event is already in [processed_transactions],
    [process_event] ends as [AlreadyRelayed], makes no node call at all
    (so the check comes before any work on the destination ledger) and
    changes neither the world, the set nor the watermark: all it does is
    log one warning.  (2) An identifier whose release has just been
    completed is skipped by the gate when any event carrying it is
    dispatched again.  (3) Over a whole process, from start-up through any
    number of cycles and whatever the nodes answer, no identifier is
    reported as released twice.  (4) A dispatch hands at most one release
    call to the destination node, the one derived from its event.  (5) Once
    an identifier is recorded, no release for it is built again, through
    any number of cycles of the loop.  A release counts once it is
    completed, that is built and signed and recorded; an attempt that
    failed after the build is not recorded, and the release of an event
    carrying the same identifier is then built again. *)
Theorem at_most_once_dispatch :
  (forall W (ext : Externals W) (self : BridgeEventHandler) (event : Event) (st : State W),
     tx_id_of event ∈ processed_transactions st ->
     process_event ext self event st =
       (Ok tt, mkState (world st)
                       (log st ++ [mkLog WARNING (MsgAlreadyProcessed (tx_id_of event))])
                       (calls st) (processed_transactions st) (last_processed_block st)) /\
     dispatch_outcome ext self event st = Some AlreadyRelayed /\
     new_calls st (snd (process_event ext self event st)) = []) /\
  (forall W (ext : Externals W) (self : BridgeEventHandler) (event again : Event)
          (st : State W),
     transactionId (args again) = transactionId (args event) ->
     dispatch_outcome ext self event st = Some Relayed ->
     let st' := snd (process_event ext self event st) in
     dispatch_outcome ext self again st' = Some AlreadyRelayed /\
     new_calls st' (snd (process_event ext self again st')) = [] /\
     processed_transactions (snd (process_event ext self again st')) =
       processed_transactions st') /\
  (forall W (ext : Externals W) (environ : gmap string string) (fuel : nat) (w : W),
     NoDup (relayed_ids (log (snd (main ext environ fuel (initial_state w)))))) /\
  (forall W (ext : Externals W) (self : BridgeEventHandler) (event : Event) (st : State W),
     let st' := snd (process_event ext self event st) in
     built_releases (new_calls st st') = [] \/
     built_releases (new_calls st st') = [release_action self event]) /\
  (forall W (ext : Externals W) (self : BridgeEventListener) (fuel : nat) (st : State W)
          (id : list byte),
     hex id ∈ processed_transactions st ->
     Forall (fun call => rc_sourceTransactionId call <> id)
            (built_releases (new_calls st (snd (run ext self fuel st))))).
Proof.
  split; [| split; [| split; [| split]]].
  - intros W ext self event st Hin.
    pose proof (process_event_duplicate ext self event st Hin) as Hpe.
    split; [exact Hpe |].
    unfold dispatch_outcome, new_log, new_calls. rewrite Hpe. simpl.
    rewrite !drop_app_length, drop_all. done.
  - intros W ext self event again st Hsame Hrelayed st'.
    destruct (process_event_summary ext self event st)
      as (s1 & dl & dc & o & Hpe & _ & _ & _ & _ & _ & _ & Ho & Hcase).
    rewrite Hrelayed in Ho. injection Ho as <-.
    destruct Hcase as (_ & Hproc & _).
    assert (Hin : tx_id_of again ∈ processed_transactions st').
    { unfold st'. rewrite Hpe. simpl. rewrite Hproc.
      unfold tx_id_of. rewrite Hsame.
      apply elem_of_union_l, elem_of_singleton. reflexivity. }
    pose proof (process_event_duplicate ext self again st' Hin) as Hagain.
    unfold dispatch_outcome, new_log, new_calls. rewrite Hagain. simpl.
    rewrite !drop_app_length, drop_all. done.
  - intros W ext environ fuel w.
    apply (main_relay_invariant ext environ fuel (initial_state w)).
    reflexivity.
  - intros W ext self event st. apply (dispatch_builds ext self event st).
  - intros W ext self fuel st id Hin.
    destruct (run_gate_stays ext id self fuel st Hin) as (_ & dc & Hcalls & Hbuilt).
    by rewrite (new_calls_app st _ dc Hcalls).
Qed.

(** C3 - a failed release leaves the index alone.  When the release of an
    event that is not yet recorded raises (the account cannot be derived,
    the nonce or the gas price cannot be read, or building or signing the
    transaction fails; the script has no submission step), [process_event]
    reports the failure with an error record, leaves
    [processed_transactions] as it was, so the identifier is still absent,
    and a later dispatch of the same event is not stopped by the duplicate
    gate. *)
Theorem failed_release_is_retryable {W} (ext : Externals W) (self : BridgeEventHandler)
    (event : Event) (st : State W) (e : exn) :
  tx_id_of event ∉ processed_transactions st ->
  fst (_simulate_release_tokens ext self event
         (snd (logger INFO (MsgProcessingNew (tx_id_of event)) st))) = Raise e ->
  let st' := snd (process_event ext self event st) in
  dispatch_outcome ext self event st = Some (Failed e) /\
  processed_transactions st' = processed_transactions st /\
  (tx_id_of event ∉ processed_transactions st') /\
  dispatch_outcome ext self event st' <> Some AlreadyRelayed.
Proof.
  intros Hnew Hfail st'.
  pose proof (process_event_new ext self event st Hnew) as Hpe. simpl in Hpe.
  destruct (release_spec ext self event
              (snd (logger INFO (MsgProcessingNew (tx_id_of event)) st)))
    as (r & st1 & dl & dc & Hrun & _ & Hlog & _ & _ & _ & Hproc & _).
  simpl in Hrun, Hlog, Hproc, Hfail. rewrite Hrun in Hpe, Hfail. simpl in Hfail. subst r.
  assert (Hset : processed_transactions st' = processed_transactions st).
  { unfold st'. rewrite Hpe. simpl. exact Hproc. }
  assert (Hout : dispatch_outcome ext self event st = Some (Failed e)).
  { unfold dispatch_outcome, new_log. rewrite Hpe. simpl.
    rewrite Hlog, <- !app_assoc, drop_app_length. simpl.
    rewrite app_comm_cons, last_snoc. done. }
  repeat split; [exact Hout | exact Hset | by rewrite Hset |].
  destruct (process_event_summary ext self event st')
    as (s2 & dl2 & dc2 & o & _ & _ & _ & _ & _ & _ & _ & -> & Hcase).
  intros [= ->]. destruct Hcase as (Hin & _). rewrite Hset in Hin. contradiction.
Qed.

(** C10 - the destination chain selector plays no part.  Dispatching an
    event and dispatching the same event with any other
    [destinationChainId] from the same state end with the same outcome,
    give rise to the same release call, make the same node calls (hence
    hand the same release call to [build_transaction]) and leave the same
    world, set and watermark. *)
Theorem dispatch_ignores_destination_chain {W} (ext : Externals W)
    (self : BridgeEventHandler) (event : Event) (chain : Z) (st : State W) :
  let other := with_destinationChainId event chain in
  let st1 := snd (process_event ext self event st) in
  let st2 := snd (process_event ext self other st) in
  dispatch_outcome ext self other st = dispatch_outcome ext self event st /\
  release_action self other = release_action self event /\
  calls st2 = calls st1 /\
  built_releases (new_calls st st2) = built_releases (new_calls st st1) /\
  world st2 = world st1 /\
  processed_transactions st2 = processed_transactions st1 /\
  last_processed_block st2 = last_processed_block st1.
Proof.
  intros other st1 st2.
  assert (Hid : tx_id_of other = tx_id_of event) by reflexivity.
  assert (Hrel : forall s, _simulate_release_tokens ext self other s =
                           _simulate_release_tokens ext self event s) by reflexivity.
  destruct (decide (tx_id_of event ∈ processed_transactions st)) as [Hin | Hnin].
  - assert (Heq : process_event ext self other st = process_event ext self event st).
    { rewrite (process_event_duplicate ext self event st Hin).
      rewrite (process_event_duplicate ext self other st); [| by rewrite Hid].
      by rewrite Hid. }
    unfold st1, st2, dispatch_outcome. rewrite Heq. done.
  - pose proof (process_event_new ext self event st Hnin) as H1.
    pose proof (process_event_new ext self other st) as H2.
    rewrite Hid in H2. specialize (H2 Hnin). simpl in H1, H2. rewrite Hrel in H2.
    destruct (release_spec ext self event
                (snd (logger INFO (MsgProcessingNew (tx_id_of event)) st)))
      as (r & s & dl & dc & Hrun & _ & Hlog & _ & _).
    simpl in Hrun, Hlog. rewrite Hrun in H1, H2.
    unfold st1, st2, dispatch_outcome, new_log, new_calls.
    destruct r as [[] | e |]; [| | done]; rewrite H1, H2; simpl.
    + done.
    + rewrite Hlog, <- !app_assoc, !drop_app_length. simpl.
      rewrite !app_comm_cons, !last_snoc. done.
Qed.

(** C2, as the script has it - a failed dispatch does not hold the
    watermark back.  Whenever the head is above the watermark and the event
    query returns, the cycle sets the watermark to the head, whatever the
    nodes answer during the dispatches and so whatever their outcomes; the
    events of the range are each entered once, and the event query of the
    following cycle, if there is one, starts at the block after that head:
    the range is not scanned again.  The watermark stays only when the head
    query or the event query itself fails, or when there is no new block. *)
Theorem watermark_advances_whatever_the_outcomes {W} (ext : Externals W)
    (self : BridgeEventListener) (st : State W) :
  let st' := snd (cycle ext self st) in
  match node_answers ext self st with
  | Scanned head events =>
      last_processed_block st < head /\
      last_processed_block st' = head /\
      attempted_ids (new_log st st') = map tx_id_of events /\
      Forall (fun range => fst range = head + 1)
             (query_ranges (new_calls st' (snd (cycle ext self st'))))
  | HeadFailed _ | NothingNew _ | QueryFailed _ _ =>
      last_processed_block st' = last_processed_block st
  end.
Proof.
  intros st'.
  destruct (cycle_summary ext self st)
    as (r & s1 & dl & dc & Hc & _ & _ & Hlog & _ & _ & _ & Hcase).
  assert (Hst' : st' = s1) by (unfold st'; by rewrite Hc). rewrite Hst'. clear Hst' st'.
  destruct (node_answers ext self st) as [e | head | head e | head events];
    try tauto.
  destruct Hcase as (Hlt & Hlast & _ & Hatt & _).
  repeat split; try done.
  - by rewrite (new_log_app st s1 dl Hlog).
  - destruct (cycle_summary ext self s1)
      as (r2 & s2 & dl2 & dc2 & Hc2 & _ & _ & _ & Hcalls2 & _ & _ & Hcase2).
    rewrite Hc2. simpl. rewrite (new_calls_app s1 s2 dc2 Hcalls2).
    destruct (node_answers ext self s1);
      [ destruct Hcase2 as (_ & Hq & _) | destruct Hcase2 as (_ & _ & Hq & _)
      | destruct Hcase2 as (_ & _ & Hq & _) | destruct Hcase2 as (_ & _ & Hq & _) ];
      rewrite Hq; repeat constructor; simpl; by rewrite Hlast.
Qed.

(** C4 - the watermark never goes down.  A cycle either leaves
    [last_processed_block] as it is or sets it to a strictly greater value,
    and after any number of cycles it is at least what it was when [run]
    was entered. *)
Theorem watermark_monotone {W} (ext : Externals W) (self : BridgeEventListener)
    (st : State W) :
  (last_processed_block (snd (cycle ext self st)) = last_processed_block st \/
   last_processed_block st < last_processed_block (snd (cycle ext self st))) /\
  forall fuel,
    last_processed_block st <= last_processed_block (snd (run ext self fuel st)).
Proof.
  split.
  - apply cycle_watermark.
  - intros fuel. apply (run_watermark_le ext self fuel st).
Qed.

(** C5, as the script has it - one query per cycle, of any size.  A cycle
    issues no event query when the head query fails or reports nothing new,
    and otherwise exactly one, over the whole span from the block after the
    watermark to the head; nothing splits it and no configuration option
    bounds it.  When the node refuses that query, the exception is caught
    by the handler of the loop, which logs it as an error, and the
    watermark stays where it was. *)
Theorem one_query_per_cycle {W} (ext : Externals W) (self : BridgeEventListener)
    (st : State W) :
  let st' := snd (cycle ext self st) in
  match node_answers ext self st with
  | HeadFailed _ | NothingNew _ => query_ranges (new_calls st st') = []
  | QueryFailed head _ =>
      query_ranges (new_calls st st') = [(last_processed_block st + 1, head)] /\
      last_processed_block st' = last_processed_block st /\
      exists m, last (new_log st st') = Some (mkLog ERROR m)
  | Scanned head _ =>
      query_ranges (new_calls st st') = [(last_processed_block st + 1, head)] /\
      last_processed_block st' = head
  end.
Proof.
  intros st'.
  destruct (cycle_summary ext self st)
    as (r & s1 & dl & dc & Hc & _ & _ & Hlog & Hcalls & _ & _ & Hcase).
  assert (Hst' : st' = s1) by (unfold st'; by rewrite Hc). rewrite Hst'. clear Hst' st'.
  rewrite (new_calls_app st s1 dc Hcalls), (new_log_app st s1 dl Hlog).
  destruct (node_answers ext self st); tauto.
Qed.

(** C6, as the script has it - nothing is ever broadcast.  Whatever the
    configuration held by the handler, a dispatch sends no transaction to
    the destination node, and neither does a whole process from start-up
    through any number of cycles: a dispatch that ends as relayed has built
    the release call of its event, signed it and logged that it would have
    sent it.  [BridgeConfig] has no field that selects between simulation
    and live submission. *)
Theorem dispatch_never_broadcasts {W} (ext : Externals W) :
  (forall (self : BridgeEventHandler) (event : Event) (st : State W),
     let st' := snd (process_event ext self event st) in
     no_broadcast (new_calls st st') /\
     match dispatch_outcome ext self event st with
     | Some Relayed =>
         built_releases (new_calls st st') = [release_action self event] /\
         In (mkLog INFO MsgSimWouldHaveSent) (new_log st st')
     | _ => True
     end) /\
  (forall (environ : gmap string string) (fuel : nat) (w : W),
     no_broadcast (calls (snd (main ext environ fuel (initial_state w))))).
Proof.
  split.
  - intros self event st st'. split.
    + destruct (process_event_summary ext self event st)
        as (s1 & dl & dc & o & Hpe & _ & Hcalls & Hdc & _).
      assert (Hst' : st' = s1) by (unfold st'; by rewrite Hpe). rewrite Hst'.
      rewrite (new_calls_app st s1 dc Hcalls).
      by apply release_calls_no_broadcast.
    + apply (dispatch_builds ext self event st).
  - intros environ fuel w.
    apply (main_never_broadcast ext environ fuel (initial_state w)).
    constructor.
Qed.

(** C8 - dispatch in the order of the scan, one event after the other.
    When a cycle's event query returns a list of events, [process_event] is
    entered once for each of them, in the order of the list (the order in
    which the node returns the logs: by block, then by position in the
    block), and every entry has reported its outcome in the log before the
    cycle ends, whatever the nodes answer during the dispatches: a failed
    dispatch does not stop the loop over the events.  The loop over the
    events returns normally and threads the state: each dispatch starts in
    the state the one before it ended in. *)
Theorem dispatch_in_scan_order {W} (ext : Externals W) (self : BridgeEventListener)
    (st : State W) (head : Z) (events : list Event) :
  node_answers ext self st = Scanned head events ->
  let st' := snd (cycle ext self st) in
  attempted_ids (new_log st st') = map tx_id_of events /\
  length (outcomes (new_log st st')) = length events /\
  forall s,
    for_each events (process_event ext (event_handler self)) s =
      (Ok tt,
       fold_left (fun s event => snd (process_event ext (event_handler self) event s))
                 events s).
Proof.
  intros Hscan st'.
  destruct (cycle_summary ext self st)
    as (r & s1 & dl & dc & Hc & _ & _ & Hlog & _ & _ & _ & Hcase).
  assert (Hst' : st' = s1) by (unfold st'; by rewrite Hc). rewrite Hst'. clear Hst' st'.
  rewrite Hscan in Hcase. rewrite (new_log_app st s1 dl Hlog).
  repeat split; try tauto.
  intros s. apply dispatch_all_fold.
Qed.

(** C7, as the script has it - a missing required variable stops the
    process before the loop.  When a required variable is not set or is
    empty, [load_config_from_env] raises [ValueError], the entry point
    catches it and logs one configuration error, and the script ends: no
    connector is built, no node is called, [run] is not entered.  Because
    the exception is caught, the interpreter's exit code is 0. *)
Theorem missing_configuration_stops_at_startup {W} (ext : Externals W)
    (environ : gmap string string) (fuel : nat) (st : State W) :
  missing_required environ ->
  exit_code (fst (main ext environ fuel st)) = Some 0 /\
  exists msg,
    main ext environ fuel st =
      (Ok tt, mkState (world st)
                      (log st ++ [mkLog ERROR (MsgConfigurationError (ValueError msg))])
                      (calls st) (processed_transactions st) (last_processed_block st)).
Proof.
  intros Hmiss.
  destruct (check_required_missing environ required_vars st Hmiss) as [msg Hm].
  assert (Hmain : main ext environ fuel st =
      (Ok tt, mkState (world st)
                      (log st ++ [mkLog ERROR (MsgConfigurationError (ValueError msg))])
                      (calls st) (processed_transactions st) (last_processed_block st))).
  { unfold main, try_except. unfold bind at 1. unfold load_config_from_env.
    unfold bind at 1. rewrite Hm. reflexivity. }
  split; [by rewrite Hmain | by exists msg].
Qed.

(** C9, as the script has it - once in the loop, the process stays in it
    as long as the sleep returns.  When the configuration loads, the
    listener is built and [time.sleep] returns for the configured poll
    interval, the process is still running after any number of cycles,
    whatever the nodes answer: every cycle ends normally, the failure of a
    node call or of a dispatch being caught and logged inside it.  The
    process can end only before the loop, when loading the configuration or
    building the listener raises, or at the sleep that ends a cycle, which
    is outside the [try] of the loop: [time.sleep] raises on a negative
    interval and on one too large for the platform. *)
Theorem loop_survives_failures {W} (ext : Externals W) (environ : gmap string string)
    (fuel : nat) (st st1 st2 : State W) (config : BridgeConfig)
    (listener : BridgeEventListener) :
  load_config_from_env ext environ st = (Ok config, st1) ->
  BridgeEventListener_init ext config st1 = (Ok listener, st2) ->
  sleep_returns ext (poll_interval_seconds config) ->
  fst (main ext environ fuel st) = Running /\
  exit_code (fst (main ext environ fuel st)) = None /\
  forall s, fst (cycle ext listener s) = Ok tt.
Proof.
  intros Hload Hinit Hpoll.
  pose proof (init_config ext config st1 st2 listener Hinit) as Hcfg.
  assert (Hrun : fst (main ext environ fuel st) = Running).
  { unfold main, try_except, bind. rewrite Hload, Hinit.
    pose proof (run_running ext listener fuel st2) as Hr.
    rewrite Hcfg in Hr. specialize (Hr Hpoll).
    destruct (run ext listener fuel st2) as [r s3]. simpl in Hr. by rewrite Hr. }
  repeat split; [exact Hrun | by rewrite Hrun |].
  intros s.
  destruct (cycle_summary ext listener s) as (r & s' & dl & dc & -> & _ & Hok & _).
  simpl. apply Hok. by rewrite Hcfg.
Qed.

(** * The claims on the concrete world *)

(** C1 at a concrete input: the event of block 11 dispatched when its
    identifier is already recorded. *)
Lemma at_most_once_dispatch_witness :
  tx_id_of Demo.event11 ∈ processed_transactions Demo.state_relayed /\
  dispatch_outcome Demo.ext Demo.handler Demo.event11 Demo.state_relayed
    = Some AlreadyRelayed /\
  new_calls Demo.state_relayed
            (snd (process_event Demo.ext Demo.handler Demo.event11 Demo.state_relayed)) = [].
Proof.
  assert (Hin : tx_id_of Demo.event11 ∈ processed_transactions Demo.state_relayed)
    by (vm_compute; reflexivity).
  split; [exact Hin |].
  exact (proj2 (proj1 at_most_once_dispatch Demo.World Demo.ext Demo.handler
                      Demo.event11 Demo.state_relayed Hin)).
Defined.

(** C1 refuted on the script: with a key that cannot sign and an identifier
    emitted at blocks 11 and 12, the release for that identifier is handed
    to [build_transaction] twice in one cycle; both dispatches fail at the
    signature, so nothing is recorded and nothing is reported as
    released. *)
Lemma failed_release_is_built_again :
  let st := snd (main Demo.ext Demo.environ_bad_key 1 (initial_state Demo.world_twice)) in
  transactionId (args Demo.event11) = transactionId (args Demo.event12) /\
  map rc_sourceTransactionId (built_releases (calls st)) = [[x01]; [x01]] /\
  outcomes (log st)
    = [Failed (OtherException "cannot sign"); Failed (OtherException "cannot sign")] /\
  relayed_ids (log st) = [] /\
  elements (processed_transactions st) = [].
Proof. vm_compute. repeat split. Qed.

(** C2 refuted on the script: in the cycle over blocks 11 to 15 the
    dispatch of the event of block 13 fails, and the watermark moves from
    10 to 15 all the same; the failed identifier is not recorded, and the
    next cycle issues no event query and enters no dispatch: the failed
    event is not attempted again. *)
Lemma failed_dispatch_still_advances_watermark :
  let st1 := snd (cycle Demo.ext Demo.listener Demo.state0) in
  let st2 := snd (cycle Demo.ext Demo.listener st1) in
  outcomes (new_log Demo.state0 st1)
    = [Relayed; Failed (OtherException "cannot encode the call"); Relayed] /\
  last_processed_block Demo.state0 = 10 /\
  last_processed_block st1 = 15 /\
  elements (processed_transactions st1) = ["03"; "01"] /\
  query_ranges (new_calls st1 st2) = [] /\
  attempted_ids (new_log st1 st2) = [].
Proof. vm_compute. repeat split. Qed.

(** C3 at a concrete input: the destination node refuses to build the
    release of the event of block 13. *)
Lemma failed_release_is_retryable_witness :
  let st' := snd (process_event Demo.ext Demo.handler Demo.event13 Demo.state0) in
  (tx_id_of Demo.event13 ∉ processed_transactions Demo.state0) /\
  dispatch_outcome Demo.ext Demo.handler Demo.event13 Demo.state0
    = Some (Failed (OtherException "cannot encode the call")) /\
  processed_transactions st' = processed_transactions Demo.state0 /\
  (tx_id_of Demo.event13 ∉ processed_transactions st') /\
  dispatch_outcome Demo.ext Demo.handler Demo.event13 st' <> Some AlreadyRelayed.
Proof.
  assert (Hnew : tx_id_of Demo.event13 ∉ processed_transactions Demo.state0)
    by (vm_compute; discriminate).
  split; [exact Hnew |].
  apply (failed_release_is_retryable Demo.ext Demo.handler Demo.event13 Demo.state0
           (OtherException "cannot encode the call") Hnew).
  vm_compute. reflexivity.
Defined.

(** C5 refuted on the script: no cap bounds the span of the event queries.
    Whatever the cap, the cycle started at watermark 10 under a head more
    than that many blocks further issues one query over the whole span. *)
Lemma no_cap_on_scan_range :
  ~ exists cap : Z,
      forall st : State Demo.World,
        Forall (fun range => span range <= cap)
               (query_ranges (new_calls st (snd (cycle Demo.ext Demo.listener st)))).
Proof.
  intros [cap Hcap].
  set (head := Z.max cap 0 + 11).
  set (st := mkState (Demo.world_at head) [] [] ∅ 10).
  specialize (Hcap st).
  destruct (cycle_summary Demo.ext Demo.listener st)
    as (r & st' & dl & dc & Hc & _ & _ & _ & Hcalls & _ & _ & Hcase).
  rewrite Hc in Hcap. simpl in Hcap. rewrite (new_calls_app st st' dc Hcalls) in Hcap.
  assert (Hans : node_answers Demo.ext Demo.listener st = Scanned head []).
  { unfold node_answers. simpl.
    destruct (Z.ltb_spec 10 head) as [_ | Hle]; [reflexivity | unfold head in Hle; lia]. }
  rewrite Hans in Hcase. destruct Hcase as (_ & _ & Hq & _).
  rewrite Hq in Hcap. apply Forall_cons in Hcap as [Hspan _].
  unfold span, head in Hspan. simpl in Hspan. lia.
Qed.

(** C6 refuted on the script: no configuration, and no behaviour of the
    nodes, makes a dispatch broadcast a transaction. *)
Lemma no_configuration_broadcasts :
  ~ exists (W : Type) (ext : Externals W) (self : BridgeEventHandler) (event : Event)
           (st : State W),
      existsb is_broadcast (new_calls st (snd (process_event ext self event st))) = true.
Proof.
  intros (W & ext & self & event & st & Hex).
  destruct (process_event_summary ext self event st)
    as (st' & dl & dc & o & Hpe & _ & Hcalls & Hdc & _).
  rewrite Hpe in Hex. simpl in Hex. rewrite (new_calls_app st st' dc Hcalls) in Hex.
  apply existsb_exists in Hex as (c & Hin & Hc).
  apply release_calls_no_broadcast in Hdc.
  unfold no_broadcast in Hdc. rewrite Forall_forall in Hdc.
  apply list_elem_of_In in Hin. specialize (Hdc c Hin). congruence.
Qed.

(** C7 refuted on the script: with [LISTENER_PRIVATE_KEY] not set the
    process ends with exit code 0, not with a non-zero one. *)
Lemma missing_variable_exits_with_zero :
  missing_required Demo.environ_no_key /\
  exit_code (fst (main Demo.ext Demo.environ_no_key 3 (initial_state Demo.world0)))
    = Some 0 /\
  ~ exists code,
      exit_code (fst (main Demo.ext Demo.environ_no_key 3 (initial_state Demo.world0)))
        = Some code /\ code <> 0.
Proof.
  assert (Hexit :
    exit_code (fst (main Demo.ext Demo.environ_no_key 3 (initial_state Demo.world0)))
      = Some 0) by (vm_compute; reflexivity).
  split; [| split].
  - exists "LISTENER_PRIVATE_KEY". split; [simpl; tauto | vm_compute; reflexivity].
  - exact Hexit.
  - intros (code & Hcode & Hnz). rewrite Hexit in Hcode. congruence.
Qed.

(** C7 at a concrete input: [LISTENER_PRIVATE_KEY] is not set. *)
Lemma missing_configuration_stops_at_startup_witness :
  missing_required Demo.environ_no_key /\
  exit_code (fst (main Demo.ext Demo.environ_no_key 3 (initial_state Demo.world0)))
    = Some 0 /\
  exists msg,
    main Demo.ext Demo.environ_no_key 3 (initial_state Demo.world0) =
      (Ok tt, mkState Demo.world0
                      ([] ++ [mkLog ERROR (MsgConfigurationError (ValueError msg))])
                      [] ∅ 0).
Proof.
  assert (Hmiss : missing_required Demo.environ_no_key).
  { exists "LISTENER_PRIVATE_KEY". split; [simpl; tauto | vm_compute; reflexivity]. }
  split; [exact Hmiss |].
  exact (missing_configuration_stops_at_startup Demo.ext Demo.environ_no_key 3
           (initial_state Demo.world0) Hmiss).
Defined.

(** C8 at a concrete input: the scan of blocks 11 to 15 returns the events
    of blocks 11, 13 and 14; the dispatch of the second one fails and the
    third is entered all the same. *)
Lemma dispatch_in_scan_order_witness :
  let st' := snd (cycle Demo.ext Demo.listener Demo.state0) in
  node_answers Demo.ext Demo.listener Demo.state0
    = Scanned 15 [Demo.event11; Demo.event13; Demo.event14] /\
  attempted_ids (new_log Demo.state0 st') = ["01"; "02"; "03"] /\
  outcomes (new_log Demo.state0 st')
    = [Relayed; Failed (OtherException "cannot encode the call"); Relayed].
Proof.
  assert (Hscan : node_answers Demo.ext Demo.listener Demo.state0
                  = Scanned 15 [Demo.event11; Demo.event13; Demo.event14])
    by (vm_compute; reflexivity).
  split; [exact Hscan |].
  split.
  - exact (proj1 (dispatch_in_scan_order Demo.ext Demo.listener Demo.state0 15
                    [Demo.event11; Demo.event13; Demo.event14] Hscan)).
  - vm_compute. reflexivity.
Defined.

(** C9 refuted on the script: the configuration is complete and loads, the
    source node cannot be reached when the listener is built, and the
    process ends: it logs a critical error and the script is over. *)
Lemma unreachable_node_ends_the_process :
  let st := initial_state Demo.world_down in
  fst (load_config_from_env Demo.ext Demo.environ_full st) = Ok Demo.config /\
  exit_code (fst (main Demo.ext Demo.environ_full 3 st)) = Some 0 /\
  last (log (snd (main Demo.ext Demo.environ_full 3 st)))
    = Some (mkLog CRITICAL
              (MsgCriticalInit (ConnectionError "Unable to connect to http://source"))).
Proof. vm_compute. repeat split. Qed.

(** C9 at a concrete input: a complete environment, reachable nodes and a
    poll interval of 15 seconds. *)
Lemma loop_survives_failures_witness :
  let st := initial_state Demo.world0 in
  sleep_returns Demo.ext (poll_interval_seconds Demo.config) /\
  fst (main Demo.ext Demo.environ_full 3 st) = Running /\
  exit_code (fst (main Demo.ext Demo.environ_full 3 st)) = None.
Proof.
  assert (Hpoll : sleep_returns Demo.ext (poll_interval_seconds Demo.config))
    by (intros w; reflexivity).
  split; [exact Hpoll |].
  assert (Hload : load_config_from_env Demo.ext Demo.environ_full
                    (initial_state Demo.world0)
                  = (Ok Demo.config, initial_state Demo.world0))
    by (vm_compute; reflexivity).
  pose proof (loop_survives_failures Demo.ext Demo.environ_full 3
                (initial_state Demo.world0) (initial_state Demo.world0)
                (snd (BridgeEventListener_init Demo.ext Demo.config
                        (initial_state Demo.world0)))
                Demo.config Demo.listener Hload) as H.
  assert (Hinit : BridgeEventListener_init Demo.ext Demo.config (initial_state Demo.world0)
                  = (Ok Demo.listener,
                     snd (BridgeEventListener_init Demo.ext Demo.config
                            (initial_state Demo.world0))))
    by (vm_compute; reflexivity).
  destruct (H Hinit Hpoll) as (Hrun & Hexit & _).
  split; [exact Hrun | exact Hexit].
Defined.

(** The run the specification gives as an end-to-end test: started at block
    100 under a head of 105 with one event at block 103, the first cycle
    queries blocks 101 to 105, relays the event once and moves the watermark
    to 105; the second cycle, under the same head, queries nothing; the
    process is still running. *)
Example end_to_end :
  let r := main Demo.ext Demo.environ_100 2 (initial_state Demo.world_105) in
  fst r = Running /\
  query_ranges (calls (snd r)) = [(101, 105)] /\
  attempted_ids (log (snd r)) = ["aa"] /\
  outcomes (log (snd r)) = [Relayed] /\
  elements (processed_transactions (snd r)) = ["aa"] /\
  last_processed_block (snd r) = 105 /\
  Demo.clock (world (snd r)) = 2.
Proof. vm_compute. repeat split. Qed.

(** Why the sleep must return for the loop to go on: [time.sleep] is
    outside the [try] of the loop, and with an interval of -1 its
    [ValueError] leaves [run] at the end of the first cycle and reaches the
    entry point, which logs it as a configuration error. *)
Example negative_interval_leaves_the_loop :
  let r := main Demo.ext Demo.environ_negative 5 (initial_state Demo.world0) in
  exit_code (fst r) = Some 0 /\
  last_processed_block (snd r) = 15 /\
  last (log (snd r))
    = Some (mkLog ERROR
              (MsgConfigurationError (ValueError "sleep length must be non-negative"))).
Proof. vm_compute. repeat split. Qed.

(** The same with an interval the platform cannot represent: the sleep
    that ends the first cycle raises, which is not a [ValueError], and the
    entry point logs it as a critical error and the script is over. *)
Example huge_interval_leaves_the_loop :
  let r := main Demo.ext Demo.environ_huge_interval 5 (initial_state Demo.world0) in
  exit_code (fst r) = Some 0 /\
  last_processed_block (snd r) = 15 /\
  last (log (snd r))
    = Some (mkLog CRITICAL
              (MsgCriticalInit
                 (OtherException "timestamp too large to convert to C _PyTime_t"))).
Proof. vm_compute. repeat split. Qed.

(** * Further properties of the script *)

(** ** Loading the configuration *)

Section Loader.

Context {W : Type} (ext : Externals W).

(** The check loop stops at the first variable that is missing. *)
Lemma check_required_first (environ : gmap string string) (vars : list string)
    (st : State W) :
  for_each vars
    (fun var =>
       if truthy (environ !! var) then ret tt
       else raise (ValueError
                     (String.append "Missing required environment variable: " var))) st
  = match List.find (fun var => negb (truthy (environ !! var))) vars with
    | Some var => (Raise (ValueError (missing_message var)), st)
    | None => (Ok tt, st)
    end.
Proof.
  induction vars as [| v rest IH]; simpl; [reflexivity |].
  unfold bind. destruct (truthy (environ !! v)); simpl.
  - unfold ret. apply IH.
  - reflexivity.
Qed.

(** The loader, path by path.  It never touches the state. *)
Lemma load_config_result (environ : gmap string string) (st : State W) :
  load_config_from_env ext environ st =
    match first_missing environ with
    | Some var => (Raise (ValueError (missing_message var)), st)
    | None =>
        match int_reply ext environ "START_BLOCK" 0 with
        | Throws e => (Raise e, st)
        | Returns first =>
            match int_reply ext environ "POLL_INTERVAL_SECONDS" 15 with
            | Throws e => (Raise e, st)
            | Returns interval =>
                (Ok (mkBridgeConfig
                       (default "" (environ !! "SOURCE_CHAIN_RPC"))
                       (default "" (environ !! "DESTINATION_CHAIN_RPC"))
                       (default "" (environ !! "SOURCE_BRIDGE_ADDRESS"))
                       (default "" (environ !! "DESTINATION_BRIDGE_ADDRESS"))
                       (default "" (environ !! "LISTENER_PRIVATE_KEY"))
                       first interval), st)
            end
        end
    end.
Proof.
  unfold load_config_from_env. unfold bind at 1.
  rewrite check_required_first. fold (first_missing environ).
  destruct (first_missing environ) as [var |]; [reflexivity |].
  unfold bind, getenv_int, int_reply, local, ret.
  destruct (environ !! "START_BLOCK") as [s1 |];
    [destruct (py_int ext s1) as [first | e]; [| reflexivity] |];
    (destruct (environ !! "POLL_INTERVAL_SECONDS") as [s2 |];
       [destruct (py_int ext s2) as [interval | e]; reflexivity | reflexivity]).
Qed.

(** A variable that passed the check is set, to a string that is not
    empty. *)
Lemma present_when_none_missing (environ : gmap string string) (var : string) :
  first_missing environ = None -> In var required_vars ->
  exists value, environ !! var = Some value /\ value <> "".
Proof.
  intros Hnone Hin. unfold first_missing in Hnone.
  pose proof (find_none _ _ Hnone var Hin) as Hvar. simpl in Hvar.
  destruct (environ !! var) as [[| c rest] |]; simpl in Hvar; try discriminate.
  exists (String c rest). split; [reflexivity | discriminate].
Qed.

End Loader.

(** X1 - the loader names the first missing variable.  When required
    variables are missing, the error names the first of them in the order
    the loader checks (source RPC, destination RPC, source bridge,
    destination bridge, private key), the state is untouched, and the entry
    point logs exactly that error as a configuration error and ends. *)
Theorem first_missing_variable_is_reported {W} (ext : Externals W)
    (environ : gmap string string) (fuel : nat) (st : State W) (var : string) :
  first_missing environ = Some var ->
  load_config_from_env ext environ st = (Raise (ValueError (missing_message var)), st) /\
  main ext environ fuel st =
    (Ok tt, mkState (world st)
              (log st ++ [mkLog ERROR (MsgConfigurationError
                                         (ValueError (missing_message var)))])
              (calls st) (processed_transactions st) (last_processed_block st)).
Proof.
  intros Hfirst.
  assert (Hload : load_config_from_env ext environ st
                  = (Raise (ValueError (missing_message var)), st)).
  { rewrite load_config_result, Hfirst. reflexivity. }
  split; [exact Hload |].
  unfold main, try_except. unfold bind at 1. rewrite Hload. reflexivity.
Qed.

Lemma first_missing_variable_is_reported_witness :
  first_missing Demo.environ_two_missing = Some "DESTINATION_CHAIN_RPC" /\
  load_config_from_env Demo.ext Demo.environ_two_missing (initial_state Demo.world0)
    = (Raise (ValueError (missing_message "DESTINATION_CHAIN_RPC")),
       initial_state Demo.world0).
Proof.
  assert (H : first_missing Demo.environ_two_missing = Some "DESTINATION_CHAIN_RPC")
    by (vm_compute; reflexivity).
  split; [exact H |].
  exact (proj1 (first_missing_variable_is_reported Demo.ext Demo.environ_two_missing 0
                  (initial_state Demo.world0) "DESTINATION_CHAIN_RPC" H)).
Defined.

(** X2 - the defaults of the optional variables.  When no required variable
    is missing and neither [START_BLOCK] nor [POLL_INTERVAL_SECONDS] is
    set, the loader returns, without touching the state, a configuration
    with start block 0 and poll interval 15 whose five other fields are the
    values of the five required variables, none of them empty. *)
Theorem loader_defaults {W} (ext : Externals W) (environ : gmap string string)
    (st : State W) :
  first_missing environ = None ->
  environ !! "START_BLOCK" = None ->
  environ !! "POLL_INTERVAL_SECONDS" = None ->
  exists config,
    load_config_from_env ext environ st = (Ok config, st) /\
    start_block config = 0 /\ poll_interval_seconds config = 15 /\
    environ !! "SOURCE_CHAIN_RPC" = Some (source_chain_rpc config) /\
    environ !! "DESTINATION_CHAIN_RPC" = Some (destination_chain_rpc config) /\
    environ !! "SOURCE_BRIDGE_ADDRESS" = Some (source_bridge_address config) /\
    environ !! "DESTINATION_BRIDGE_ADDRESS" = Some (destination_bridge_address config) /\
    environ !! "LISTENER_PRIVATE_KEY" = Some (listener_private_key config) /\
    source_chain_rpc config <> "" /\ destination_chain_rpc config <> "" /\
    source_bridge_address config <> "" /\ destination_bridge_address config <> "" /\
    listener_private_key config <> "".
Proof.
  intros Hnone Hstart Hpoll.
  eexists. split.
  { rewrite load_config_result, Hnone. unfold int_reply. rewrite Hstart, Hpoll.
    reflexivity. }
  simpl.
  destruct (present_when_none_missing environ "SOURCE_CHAIN_RPC" Hnone)
    as (v1 & -> & Hv1); [simpl; tauto |].
  destruct (present_when_none_missing environ "DESTINATION_CHAIN_RPC" Hnone)
    as (v2 & -> & Hv2); [simpl; tauto |].
  destruct (present_when_none_missing environ "SOURCE_BRIDGE_ADDRESS" Hnone)
    as (v3 & -> & Hv3); [simpl; tauto |].
  destruct (present_when_none_missing environ "DESTINATION_BRIDGE_ADDRESS" Hnone)
    as (v4 & -> & Hv4); [simpl; tauto |].
  destruct (present_when_none_missing environ "LISTENER_PRIVATE_KEY" Hnone)
    as (v5 & -> & Hv5); [simpl; tauto |].
  simpl. repeat split; done.
Qed.

Lemma loader_defaults_witness :
  exists config,
    load_config_from_env Demo.ext Demo.environ_defaults (initial_state Demo.world0)
      = (Ok config, initial_state Demo.world0) /\
    start_block config = 0 /\ poll_interval_seconds config = 15.
Proof.
  destruct (loader_defaults Demo.ext Demo.environ_defaults (initial_state Demo.world0))
    as (config & Hload & Hstart & Hpoll & _);
    [vm_compute; reflexivity | vm_compute; reflexivity | vm_compute; reflexivity |].
  exists config. split; [exact Hload | split; [exact Hstart | exact Hpoll]].
Defined.

(** X3 - a start block that is not a number.  When no required variable is
    missing and [int] raises [ValueError] on the value of [START_BLOCK],
    the loader raises it without reading the poll interval, and the entry
    point logs it as a configuration error and ends: no node is called and
    the loop is not entered. *)
Theorem bad_start_block_is_a_configuration_error {W} (ext : Externals W)
    (environ : gmap string string) (fuel : nat) (st : State W) (s msg : string) :
  first_missing environ = None ->
  environ !! "START_BLOCK" = Some s ->
  py_int ext s = Throws (ValueError msg) ->
  main ext environ fuel st =
    (Ok tt, mkState (world st)
              (log st ++ [mkLog ERROR (MsgConfigurationError (ValueError msg))])
              (calls st) (processed_transactions st) (last_processed_block st)).
Proof.
  intros Hnone Hstart Hint.
  unfold main, try_except. unfold bind at 1.
  rewrite load_config_result, Hnone. unfold int_reply. rewrite Hstart, Hint.
  reflexivity.
Qed.

Lemma bad_start_block_is_a_configuration_error_witness :
  main Demo.ext Demo.environ_bad_start 3 (initial_state Demo.world0) =
    (Ok tt, mkState Demo.world0
              ([] ++ [mkLog ERROR (MsgConfigurationError
                                     (ValueError "invalid literal for int()"))])
              [] ∅ 0).
Proof.
  apply (bad_start_block_is_a_configuration_error Demo.ext Demo.environ_bad_start 3
           (initial_state Demo.world0) "latest" "invalid literal for int()");
    vm_compute; reflexivity.
Defined.

(** ** Start-up *)

Section Startup.

Context {W : Type} (ext : Externals W).

(** [ChainConnector.__init__], path by path. *)
Lemma connector_init_result (url : string) (st : State W) :
  ChainConnector_init ext url st =
    match is_connected ext url (world st) with
    | (false, w1) =>
        (Raise (ConnectionError (String.append "Unable to connect to " url)),
         mkState w1 (log st ++ [mkLog ERROR (MsgConnectFailed url)])
                 (calls st ++ [mkCall url OpIsConnected])
                 (processed_transactions st) (last_processed_block st))
    | (true, w1) =>
        match chain_id ext url w1 with
        | (Throws e, w2) =>
            (Raise e,
             mkState w2 (log st)
                     (calls st ++ [mkCall url OpIsConnected; mkCall url OpChainId])
                     (processed_transactions st) (last_processed_block st))
        | (Returns cid, w2) =>
            (Ok (mkChainConnector url),
             mkState w2 (log st ++ [mkLog INFO (MsgConnected cid)])
                     (calls st ++ [mkCall url OpIsConnected; mkCall url OpChainId])
                     (processed_transactions st) (last_processed_block st))
        end
    end.
Proof.
  unfold ChainConnector_init, bind, rpc, logger, raise, ret. simpl.
  destruct (is_connected ext url (world st)) as [[|] w1]; simpl; [| reflexivity].
  destruct (chain_id ext url w1) as [[cid | e] w2]; simpl;
    rewrite <- app_assoc; reflexivity.
Qed.

(** What holds when the constructor of the listener returns. *)
Lemma init_success (config : BridgeConfig) (st st' : State W) (l : BridgeEventListener) :
  BridgeEventListener_init ext config st = (Ok l, st') ->
  l_config l = config /\
  h_config (event_handler l) = config /\
  rpc_url (source_connector l) = source_chain_rpc config /\
  rpc_url (dest_connector l) = destination_chain_rpc config /\
  h_dest_connector (event_handler l) = dest_connector l /\
  contract_rpc (source_bridge_contract l) = source_chain_rpc config /\
  contract_rpc (dest_bridge_contract (event_handler l)) = destination_chain_rpc config /\
  to_checksum_address ext (source_bridge_address config)
    = Returns (contract_address (source_bridge_contract l)) /\
  to_checksum_address ext (destination_bridge_address config)
    = Returns (contract_address (dest_bridge_contract (event_handler l))) /\
  processed_transactions st' = ∅ /\
  calls st' = calls st ++ startup_calls config /\
  (exists c1 c2, log st' = log st ++ [mkLog INFO (MsgConnected c1);
                                      mkLog INFO (MsgConnected c2)]) /\
  if start_block config =? 0
  then exists w w', block_number ext (source_chain_rpc config) w
                    = (Returns (last_processed_block st'), w')
  else last_processed_block st' = start_block config.
Proof.
  unfold BridgeEventListener_init. unfold bind at 1.
  rewrite connector_init_result.
  destruct (is_connected ext _ (world st)) as [[|] w1]; [| discriminate].
  destruct (chain_id ext _ w1) as [[c1 | e] w2]; [| discriminate].
  unfold bind at 1. rewrite connector_init_result. simpl.
  destruct (is_connected ext _ w2) as [[|] w3]; [| discriminate].
  destruct (chain_id ext _ w3) as [[c2 | e] w4]; [| discriminate].
  unfold BridgeEventHandler_init, get_contract, bind, local,
    set_processed_transactions, set_last_processed_block, ret, rpc.
  simpl.
  destruct (to_checksum_address ext (destination_bridge_address config))
    as [dest_address | e]; [| discriminate].
  destruct (to_checksum_address ext (source_bridge_address config))
    as [source_address | e]; [| discriminate].
  unfold startup_calls.
  destruct (start_block config =? 0) eqn:Hstart; simpl.
  - destruct (block_number ext _ w4) as [[head | e] w5] eqn:Hhead; [| discriminate].
    intros [= <- <-]. simpl.
    repeat split; try reflexivity.
    + rewrite <- !app_assoc. reflexivity.
    + exists c1, c2. rewrite <- !app_assoc. reflexivity.
    + eauto.
  - intros [= <- <-]. simpl.
    repeat split; try reflexivity.
    + rewrite <- !app_assoc. reflexivity.
    + exists c1, c2. rewrite <- !app_assoc. reflexivity.
Qed.

(** Neither handler of the entry point raises. *)
Lemma main_handler_returns (e : exn) (st : State W) :
  fst (@main_handler W e st) = Ok tt.
Proof. destruct e; reflexivity. Qed.

End Startup.

(** X4 - a source node that cannot be reached at start-up.  With a
    configuration that loads, when the source node does not answer the
    connection check, the process makes that one node call and no other
    (the destination node is not contacted), logs the failed connection and
    a critical initialisation error, and ends; the loop is not entered. *)
Theorem unreachable_source_stops_startup {W} (ext : Externals W)
    (environ : gmap string string) (fuel : nat) (st st1 : State W)
    (config : BridgeConfig) (w1 : W) :
  load_config_from_env ext environ st = (Ok config, st1) ->
  is_connected ext (source_chain_rpc config) (world st1) = (false, w1) ->
  main ext environ fuel st =
    (Ok tt,
     mkState w1
       (log st1 ++
        [mkLog ERROR (MsgConnectFailed (source_chain_rpc config));
         mkLog CRITICAL
           (MsgCriticalInit
              (ConnectionError
                 (String.append "Unable to connect to " (source_chain_rpc config))))])
       (calls st1 ++ [mkCall (source_chain_rpc config) OpIsConnected])
       (processed_transactions st1) (last_processed_block st1)).
Proof.
  intros Hload Hdown.
  unfold main, try_except. unfold bind at 1. rewrite Hload.
  unfold bind at 1. unfold BridgeEventListener_init. unfold bind at 1.
  rewrite connector_init_result, Hdown. simpl.
  unfold logger. simpl. rewrite <- app_assoc. reflexivity.
Qed.

Lemma unreachable_source_stops_startup_witness :
  let st := initial_state Demo.world_down in
  calls (snd (main Demo.ext Demo.environ_full 3 st))
    = [mkCall "http://source" OpIsConnected] /\
  fst (main Demo.ext Demo.environ_full 3 st) = Ok tt.
Proof.
  assert (Hload : load_config_from_env Demo.ext Demo.environ_full
                    (initial_state Demo.world_down)
                  = (Ok Demo.config, initial_state Demo.world_down))
    by (vm_compute; reflexivity).
  assert (Hdown : is_connected Demo.ext (source_chain_rpc Demo.config)
                    (world (initial_state Demo.world_down))
                  = (false, Demo.world_down))
    by (vm_compute; reflexivity).
  pose proof (unreachable_source_stops_startup Demo.ext Demo.environ_full 3
                (initial_state Demo.world_down) (initial_state Demo.world_down)
                Demo.config Demo.world_down Hload Hdown) as H.
  simpl. rewrite H. split; reflexivity.
Defined.

(** X5 - how the listener is wired.  When the constructor of the listener
    returns, the listener and its handler hold the configuration they were
    given, the source connector and the source contract use the source
    endpoint, the destination connector (the one the handler holds) and the
    destination contract use the destination endpoint, each contract
    carries the checksummed form of its configured bridge address, and the
    set of processed identifiers is empty. *)
Theorem listener_wiring {W} (ext : Externals W) (config : BridgeConfig)
    (st st' : State W) (l : BridgeEventListener) :
  BridgeEventListener_init ext config st = (Ok l, st') ->
  l_config l = config /\
  h_config (event_handler l) = config /\
  rpc_url (source_connector l) = source_chain_rpc config /\
  rpc_url (dest_connector l) = destination_chain_rpc config /\
  h_dest_connector (event_handler l) = dest_connector l /\
  contract_rpc (source_bridge_contract l) = source_chain_rpc config /\
  contract_rpc (dest_bridge_contract (event_handler l)) = destination_chain_rpc config /\
  to_checksum_address ext (source_bridge_address config)
    = Returns (contract_address (source_bridge_contract l)) /\
  to_checksum_address ext (destination_bridge_address config)
    = Returns (contract_address (dest_bridge_contract (event_handler l))) /\
  processed_transactions st' = ∅.
Proof.
  intros Hinit.
  destruct (init_success ext config st st' l Hinit)
    as (H1 & H2 & H3 & H4 & H5 & H6 & H7 & H8 & H9 & H10 & _).
  repeat split; assumption.
Qed.

Lemma listener_wiring_witness :
  exists st',
    BridgeEventListener_init Demo.ext Demo.config (initial_state Demo.world0)
      = (Ok Demo.listener, st') /\
    rpc_url (source_connector Demo.listener) = "http://source" /\
    rpc_url (h_dest_connector (event_handler Demo.listener)) = "http://destination" /\
    processed_transactions st' = ∅.
Proof.
  assert (Hinit : BridgeEventListener_init Demo.ext Demo.config (initial_state Demo.world0)
                  = (Ok Demo.listener,
                     snd (BridgeEventListener_init Demo.ext Demo.config
                            (initial_state Demo.world0))))
    by (vm_compute; reflexivity).
  exists (snd (BridgeEventListener_init Demo.ext Demo.config (initial_state Demo.world0))).
  split; [exact Hinit |].
  destruct (listener_wiring Demo.ext Demo.config _ _ _ Hinit)
    as (_ & _ & _ & _ & _ & _ & _ & _ & _ & Hempty).
  split; [reflexivity |]. split; [reflexivity |]. exact Hempty.
Defined.

(** X6 - where the scan starts.  When the constructor of the listener
    returns, it has made exactly the start-up calls: connection check and
    chain identifier on the source endpoint, then on the destination
    endpoint, and the head of the source ledger only when the configured
    start block is 0.  The watermark is the configured start block when it
    is not 0, and otherwise the head the source node reported: a start
    block of 0 means the current head, not the first block. *)
Theorem scan_starts_at_start_block_or_head {W} (ext : Externals W)
    (config : BridgeConfig) (st st' : State W) (l : BridgeEventListener) :
  BridgeEventListener_init ext config st = (Ok l, st') ->
  new_calls st st' = startup_calls config /\
  if start_block config =? 0
  then exists w w', block_number ext (source_chain_rpc config) w
                    = (Returns (last_processed_block st'), w')
  else last_processed_block st' = start_block config.
Proof.
  intros Hinit.
  destruct (init_success ext config st st' l Hinit)
    as (_ & _ & _ & _ & _ & _ & _ & _ & _ & _ & Hcalls & _ & Hstart).
  split; [by apply new_calls_app | exact Hstart].
Qed.

Lemma scan_starts_at_start_block_or_head_witness :
  let st' := snd (BridgeEventListener_init Demo.ext Demo.config
                    (initial_state Demo.world0)) in
  new_calls (initial_state Demo.world0) st' = startup_calls Demo.config /\
  last_processed_block st' = 10.
Proof.
  assert (Hinit : BridgeEventListener_init Demo.ext Demo.config (initial_state Demo.world0)
                  = (Ok Demo.listener,
                     snd (BridgeEventListener_init Demo.ext Demo.config
                            (initial_state Demo.world0))))
    by (vm_compute; reflexivity).
  destruct (scan_starts_at_start_block_or_head Demo.ext Demo.config _ _ _ Hinit)
    as [Hcalls Hstart].
  split; [exact Hcalls | exact Hstart].
Defined.

(** X7 - the process never ends on an exception.  Whatever the environment
    and whatever the nodes answer, the entry point either is still in the
    loop or has reached the end of the script: every exception is caught by
    one of its two handlers, so the exit code, when there is one, is 0. *)
Theorem exit_code_is_never_a_failure {W} (ext : Externals W)
    (environ : gmap string string) (fuel : nat) (st : State W) :
  (fst (main ext environ fuel st) = Ok tt \/ fst (main ext environ fuel st) = Running) /\
  exit_code (fst (main ext environ fuel st)) <> Some 1.
Proof.
  assert (H : fst (main ext environ fuel st) = Ok tt \/
              fst (main ext environ fuel st) = Running).
  { unfold main, try_except.
    match goal with
    | |- context [match ?b with _ => _ end] => destruct b as [[[] | e |] st1]
    end; simpl; auto.
    left. apply main_handler_returns. }
  split; [exact H |].
  destruct H as [-> | ->]; simpl; discriminate.
Qed.

(** ** The identifier of a transfer *)

Lemma hex_digit_inj (n m : N) :
  (n < 16)%N -> (m < 16)%N -> hex_digit n = hex_digit m -> n = m.
Proof.
  intros Hn Hm. unfold hex_digit. intros H.
  apply N2Nat.inj.
  assert (Hn' : (N.to_nat n < 16)%nat) by lia.
  assert (Hm' : (N.to_nat m < 16)%nat) by lia.
  revert H Hn' Hm'. generalize (N.to_nat n) (N.to_nat m). intros a b H Ha Hb.
  do 16 (destruct a as [| a]; [do 16 (destruct b as [| b]; [first [reflexivity | discriminate H] |]); lia |]).
  lia.
Qed.

Lemma hex_byte_inj (b1 b2 : byte) :
  hex_digit (Byte.to_N b1 / 16) = hex_digit (Byte.to_N b2 / 16) ->
  hex_digit (Byte.to_N b1 mod 16) = hex_digit (Byte.to_N b2 mod 16) ->
  b1 = b2.
Proof.
  intros Hhi Hlo.
  pose proof (Byte.to_N_bounded b1) as B1. pose proof (Byte.to_N_bounded b2) as B2.
  assert (Hq : (Byte.to_N b1 / 16 = Byte.to_N b2 / 16)%N).
  { apply hex_digit_inj; [| | exact Hhi]; apply N.Div0.div_lt_upper_bound; lia. }
  assert (Hr : (Byte.to_N b1 mod 16 = Byte.to_N b2 mod 16)%N).
  { apply hex_digit_inj; [| | exact Hlo]; apply N.mod_lt; lia. }
  assert (Heq : Byte.to_N b1 = Byte.to_N b2).
  { rewrite (N.div_mod (Byte.to_N b1) 16), (N.div_mod (Byte.to_N b2) 16) by lia.
    rewrite Hq, Hr. reflexivity. }
  pose proof (Byte.of_to_N b1) as H1. pose proof (Byte.of_to_N b2) as H2.
  rewrite Heq in H1. rewrite H1 in H2. by injection H2.
Qed.

Lemma hex_inj (bs1 bs2 : list byte) : hex bs1 = hex bs2 -> bs1 = bs2.
Proof.
  revert bs2. induction bs1 as [| b1 rest1 IH]; intros [| b2 rest2]; simpl;
    try discriminate; [reflexivity |].
  intros [= Hhi Hlo Hrest].
  f_equal; [by apply hex_byte_inj | by apply IH].
Qed.

Lemma hex_length (bs : list byte) : String.length (hex bs) = (2 * length bs)%nat.
Proof. induction bs as [| b rest IH]; simpl; [reflexivity | rewrite IH; lia]. Qed.

(** X8 - the deduplication key is faithful.  Two events get the same
    hexadecimal identifier exactly when their [transactionId] bytes are the
    same, and the identifier has two characters per byte: no two distinct
    transfers share a key. *)
Theorem dedup_key_is_faithful (e1 e2 : Event) :
  (tx_id_of e1 = tx_id_of e2 <-> transactionId (args e1) = transactionId (args e2)) /\
  String.length (tx_id_of e1) = (2 * length (transactionId (args e1)))%nat.
Proof.
  split; [split |].
  - apply hex_inj.
  - unfold tx_id_of. by intros ->.
  - apply hex_length.
Qed.

(** X9 - relaying one transfer never masks another.  After any dispatch of
    an event, an event with a different [transactionId] whose identifier
    was not recorded before is still not recorded, so the duplicate gate
    does not skip it. *)
Theorem distinct_transfer_is_not_masked {W} (ext : Externals W)
    (self : BridgeEventHandler) (first other : Event) (st : State W) :
  transactionId (args other) <> transactionId (args first) ->
  tx_id_of other ∉ processed_transactions st ->
  let st' := snd (process_event ext self first st) in
  (tx_id_of other ∉ processed_transactions st') /\
  dispatch_outcome ext self other st' <> Some AlreadyRelayed.
Proof.
  intros Hdiff Hnew st'.
  assert (Hid : tx_id_of other <> tx_id_of first).
  { intros Heq. apply Hdiff. by apply hex_inj. }
  assert (Hstill : tx_id_of other ∉ processed_transactions st').
  { destruct (process_event_summary ext self first st)
      as (s1 & dl & dc & o & Hpe & _ & _ & _ & _ & _ & _ & _ & Hcase).
    unfold st'. rewrite Hpe. simpl.
    destruct o as [| | e].
    - destruct Hcase as (_ & -> & _).
      intros [Hone | Hold]%elem_of_union; [| contradiction].
      apply elem_of_singleton in Hone. contradiction.
    - destruct Hcase as (_ & -> & _). exact Hnew.
    - destruct Hcase as (_ & -> & _). exact Hnew. }
  split; [exact Hstill |].
  destruct (process_event_summary ext self other st')
    as (s2 & dl2 & dc2 & o & _ & _ & _ & _ & _ & _ & _ & -> & Hcase).
  intros [= ->]. destruct Hcase as (Hin & _). contradiction.
Qed.

Lemma distinct_transfer_is_not_masked_witness :
  let st' := snd (process_event Demo.ext Demo.handler Demo.event11 Demo.state0) in
  (tx_id_of Demo.event14 ∉ processed_transactions st') /\
  dispatch_outcome Demo.ext Demo.handler Demo.event14 st' <> Some AlreadyRelayed.
Proof.
  apply (distinct_transfer_is_not_masked Demo.ext Demo.handler Demo.event11 Demo.event14
           Demo.state0).
  - vm_compute. discriminate.
  - vm_compute. discriminate.
Defined.

(** ** Cycles in which nothing is dispatched *)

Section QuietCycles.

Context {W : Type} (ext : Externals W).

Lemma node_answers_head_failed (self : BridgeEventListener) (st : State W) (e : exn) :
  node_answers ext self st = HeadFailed e ->
  exists w1, block_number ext (rpc_url (source_connector self)) (world st) = (Throws e, w1).
Proof.
  unfold node_answers.
  destruct (block_number ext _ (world st)) as [[head | e'] w1].
  - destruct (_ <? _); [| discriminate].
    destruct (create_filter ext _ _ _ _ w1) as [[f | e1] w2]; [| discriminate].
    destruct (get_all_entries ext _ _ w2) as [[events | e2] w3]; discriminate.
  - intros [= ->]. by exists w1.
Qed.

Lemma node_answers_nothing_new (self : BridgeEventListener) (st : State W) (head : Z) :
  node_answers ext self st = NothingNew head ->
  head <= last_processed_block st /\
  exists w1,
    block_number ext (rpc_url (source_connector self)) (world st) = (Returns head, w1).
Proof.
  unfold node_answers.
  destruct (block_number ext _ (world st)) as [[head' | e'] w1]; [| discriminate].
  destruct (Z.ltb_spec (last_processed_block st) head') as [Hlt | Hge].
  - destruct (create_filter ext _ _ _ _ w1) as [[f | e1] w2]; [| discriminate].
    destruct (get_all_entries ext _ _ w2) as [[events | e2] w3]; discriminate.
  - intros [= ->]. split; [exact Hge | by exists w1].
Qed.

Lemma node_answers_scanned (self : BridgeEventListener) (st : State W) (head : Z)
    (events : list Event) :
  node_answers ext self st = Scanned head events ->
  last_processed_block st < head /\
  exists w1 f w2 w3,
    block_number ext (rpc_url (source_connector self)) (world st) = (Returns head, w1) /\
    create_filter ext (rpc_url (source_connector self))
      (contract_address (source_bridge_contract self))
      (last_processed_block st + 1) head w1 = (Returns f, w2) /\
    get_all_entries ext (rpc_url (source_connector self)) f w2 = (Returns events, w3).
Proof.
  unfold node_answers.
  destruct (block_number ext _ (world st)) as [[head' | e'] w1]; [| discriminate].
  destruct (Z.ltb_spec (last_processed_block st) head') as [Hlt | Hge]; [| discriminate].
  destruct (create_filter ext _ _ _ _ w1) as [[f | e1] w2] eqn:Hf; [| discriminate].
  destruct (get_all_entries ext _ _ w2) as [[events' | e2] w3] eqn:Hev; [| discriminate].
  intros [= -> ->]. split; [exact Hlt |]. by exists w1, f, w2, w3.
Qed.

(** The sleep at the end of a cycle leaves the log, the calls and both
    attributes as the guarded block and its handlers left them. *)
Lemma cycle_observables (self : BridgeEventListener) (st s1 : State W) :
  try_except (scan_and_dispatch ext self) (loop_handler self) st = (Ok tt, s1) ->
  let st' := snd (cycle ext self st) in
  log st' = log s1 /\ calls st' = calls s1 /\
  processed_transactions st' = processed_transactions s1 /\
  last_processed_block st' = last_processed_block s1.
Proof.
  intros Htry. unfold cycle, bind. rewrite Htry.
  unfold sleep. destruct (time_sleep ext _ (world s1)) as [[[] | e] w1]; simpl; done.
Qed.

End QuietCycles.

(** X10 - a cycle whose head query fails.  When the source node does not
    answer the head query, the cycle makes that one call, writes one error
    record (the connection-error line with the retry interval for a
    [requests] connection error, the unexpected-error line for anything
    else), queries no event, dispatches nothing, and leaves the set of
    processed identifiers and the watermark as they were. *)
Theorem head_failure_costs_one_cycle {W} (ext : Externals W)
    (self : BridgeEventListener) (st : State W) (e : exn) :
  node_answers ext self st = HeadFailed e ->
  let st' := snd (cycle ext self st) in
  new_log st st' = [loop_error_record self e] /\
  new_calls st st' = [mkCall (rpc_url (source_connector self)) OpBlockNumber] /\
  processed_transactions st' = processed_transactions st /\
  last_processed_block st' = last_processed_block st.
Proof.
  intros Hans st'.
  destruct (node_answers_head_failed ext self st e Hans) as [w1 Hhead].
  assert (Htry : try_except (scan_and_dispatch ext self) (loop_handler self) st
                 = (Ok tt, mkState w1 (log st ++ [loop_error_record self e])
                                   (calls st ++ [mkCall (rpc_url (source_connector self))
                                                        OpBlockNumber])
                                   (processed_transactions st) (last_processed_block st))).
  { unfold try_except, scan_and_dispatch. unfold bind at 1. unfold rpc at 1.
    rewrite Hhead. destruct e; reflexivity. }
  destruct (cycle_observables ext self st _ Htry) as (Hlog & Hcalls & Hproc & Hlast).
  fold st' in Hlog, Hcalls, Hproc, Hlast. simpl in Hlog, Hcalls, Hproc, Hlast.
  repeat split; [by apply new_log_app | by apply new_calls_app | exact Hproc | exact Hlast].
Qed.

Lemma head_failure_costs_one_cycle_witness :
  let st' := snd (cycle Demo.ext Demo.listener Demo.state_cut_off) in
  new_log Demo.state_cut_off st'
    = [mkLog ERROR (MsgRpcConnectionError (RequestsConnectionError "connection refused") 15)] /\
  new_calls Demo.state_cut_off st' = [mkCall "http://source" OpBlockNumber] /\
  processed_transactions st' = processed_transactions Demo.state_cut_off /\
  last_processed_block st' = 10.
Proof.
  apply (head_failure_costs_one_cycle Demo.ext Demo.listener Demo.state_cut_off
           (RequestsConnectionError "connection refused")).
  vm_compute. reflexivity.
Defined.

(** X11 - a cycle under a head that is not above the watermark.  When the
    head the source node reports is at or below the watermark (below it,
    for instance, after the source ledger was reorganised), the cycle makes
    the head query and nothing else: no line is logged, no event is
    queried, and the watermark is not lowered. *)
Theorem no_new_block_no_work {W} (ext : Externals W) (self : BridgeEventListener)
    (st : State W) (head : Z) :
  node_answers ext self st = NothingNew head ->
  let st' := snd (cycle ext self st) in
  head <= last_processed_block st /\
  new_log st st' = [] /\
  new_calls st st' = [mkCall (rpc_url (source_connector self)) OpBlockNumber] /\
  processed_transactions st' = processed_transactions st /\
  last_processed_block st' = last_processed_block st.
Proof.
  intros Hans st'.
  destruct (node_answers_nothing_new ext self st head Hans) as (Hle & w1 & Hhead).
  assert (Htry : try_except (scan_and_dispatch ext self) (loop_handler self) st
                 = (Ok tt, mkState w1 (log st)
                                   (calls st ++ [mkCall (rpc_url (source_connector self))
                                                        OpBlockNumber])
                                   (processed_transactions st) (last_processed_block st))).
  { unfold try_except, scan_and_dispatch. unfold bind at 1. unfold rpc at 1.
    rewrite Hhead. unfold bind, gets. simpl.
    destruct (Z.ltb_spec (last_processed_block st) head) as [Hlt | _]; [lia | reflexivity]. }
  destruct (cycle_observables ext self st _ Htry) as (Hlog & Hcalls & Hproc & Hlast).
  fold st' in Hlog, Hcalls, Hproc, Hlast. simpl in Hlog, Hcalls, Hproc, Hlast.
  repeat split; [exact Hle | | by apply new_calls_app | exact Hproc | exact Hlast].
  apply new_log_app. by rewrite app_nil_r.
Qed.

Lemma no_new_block_no_work_witness :
  let st' := snd (cycle Demo.ext Demo.listener Demo.state_behind) in
  12 <= last_processed_block Demo.state_behind /\
  new_log Demo.state_behind st' = [] /\
  new_calls Demo.state_behind st' = [mkCall "http://source" OpBlockNumber] /\
  processed_transactions st' = processed_transactions Demo.state_behind /\
  last_processed_block st' = 15.
Proof.
  apply (no_new_block_no_work Demo.ext Demo.listener Demo.state_behind 12).
  vm_compute. reflexivity.
Defined.

(** X12 - a scan that finds no event.  When the head is above the watermark
    and the event query returns an empty list, the cycle logs the scanned
    range and that no new event was found, makes the three source calls
    (head, filter over the new blocks, entries) and no destination call,
    leaves the set of processed identifiers as it was and moves the
    watermark to the head. *)
Theorem empty_scan_advances {W} (ext : Externals W) (self : BridgeEventListener)
    (st : State W) (head : Z) :
  node_answers ext self st = Scanned head [] ->
  let st' := snd (cycle ext self st) in
  new_log st st' = [mkLog INFO (MsgScanning (last_processed_block st + 1) head);
                    mkLog INFO MsgNoNewEvents] /\
  (exists event_filter,
     new_calls st st' =
       [mkCall (rpc_url (source_connector self)) OpBlockNumber;
        mkCall (rpc_url (source_connector self))
               (OpCreateFilter (contract_address (source_bridge_contract self))
                               (last_processed_block st + 1) head);
        mkCall (rpc_url (source_connector self)) (OpGetAllEntries event_filter)]) /\
  processed_transactions st' = processed_transactions st /\
  last_processed_block st' = head.
Proof.
  intros Hans st'.
  destruct (node_answers_scanned ext self st head [] Hans)
    as (Hlt & w1 & f & w2 & w3 & Hhead & Hfilter & Hentries).
  assert (Htry : try_except (scan_and_dispatch ext self) (loop_handler self) st
                 = (Ok tt,
                    mkState w3
                      (log st ++ [mkLog INFO (MsgScanning (last_processed_block st + 1) head);
                                  mkLog INFO MsgNoNewEvents])
                      (calls st ++
                       [mkCall (rpc_url (source_connector self)) OpBlockNumber;
                        mkCall (rpc_url (source_connector self))
                               (OpCreateFilter
                                  (contract_address (source_bridge_contract self))
                                  (last_processed_block st + 1) head);
                        mkCall (rpc_url (source_connector self)) (OpGetAllEntries f)])
                      (processed_transactions st) head)).
  { unfold try_except, scan_and_dispatch. unfold bind at 1. unfold rpc at 1.
    rewrite Hhead. unfold bind at 1. unfold gets at 1. simpl.
    destruct (Z.ltb_spec (last_processed_block st) head) as [_ | Hge]; [| lia].
    unfold bind at 1. unfold logger at 1. simpl.
    unfold bind at 1. unfold rpc at 1. simpl. rewrite Hfilter.
    unfold bind at 1. unfold rpc at 1. simpl. rewrite Hentries.
    unfold bind, logger, set_last_processed_block. simpl.
    rewrite <- !app_assoc. reflexivity. }
  destruct (cycle_observables ext self st _ Htry) as (Hlog & Hcalls & Hproc & Hlast).
  fold st' in Hlog, Hcalls, Hproc, Hlast. simpl in Hlog, Hcalls, Hproc, Hlast.
  repeat split; [by apply new_log_app | | exact Hproc | exact Hlast].
  exists f. by apply new_calls_app.
Qed.

Lemma empty_scan_advances_witness :
  let st' := snd (cycle Demo.ext Demo.listener Demo.state_quiet) in
  new_log Demo.state_quiet st'
    = [mkLog INFO (MsgScanning 11 20); mkLog INFO MsgNoNewEvents] /\
  processed_transactions st' = processed_transactions Demo.state_quiet /\
  last_processed_block st' = 20.
Proof.
  destruct (empty_scan_advances Demo.ext Demo.listener Demo.state_quiet 20)
    as (Hlog & _ & Hproc & Hlast); [vm_compute; reflexivity |].
  split; [exact Hlog | split; [exact Hproc | exact Hlast]].
Defined.

(** ** The set of processed identifiers over a run *)

#[local] Instance index_grows_preorder {W} : PreOrder (@index_grows W).
Proof.
  split; unfold index_grows.
  - intros st. reflexivity.
  - intros s1 s2 s3 H12 H23. etransitivity; eassumption.
Qed.

Section Index.

Context {W : Type} (ext : Externals W).

Lemma logger_index_grows (lv : Level) (m : Message) :
  transforms (@index_grows W) (logger lv m).
Proof. intros st. unfold index_grows. reflexivity. Qed.

Lemma rpc_index_grows {A} (url : string) (op : RpcOp) (f : W -> Reply A * W) :
  transforms index_grows (rpc url op f).
Proof.
  intros st. unfold index_grows, rpc.
  destruct (f (world st)) as [[a | e] w1]; reflexivity.
Qed.

Lemma set_last_index_grows (b : Z) :
  transforms (@index_grows W) (set_last_processed_block b).
Proof. intros st. unfold index_grows. reflexivity. Qed.

Lemma sleep_index_grows (secs : Z) : transforms index_grows (sleep ext secs).
Proof.
  intros st. unfold index_grows, sleep.
  destruct (time_sleep ext secs (world st)) as [[[] | e] w1]; reflexivity.
Qed.

Lemma process_event_index_grows (self : BridgeEventHandler) (event : Event) :
  transforms index_grows (process_event ext self event).
Proof.
  intros st. unfold index_grows.
  destruct (process_event_summary ext self event st)
    as (st' & dl & dc & o & -> & _ & _ & _ & _ & _ & _ & _ & Hcase).
  simpl. destruct o; destruct Hcase as (_ & -> & _);
    [apply union_subseteq_r | reflexivity | reflexivity].
Qed.

Lemma logger_recorded (lv : Level) (m : Message) :
  transforms (keeps (@recorded_were_relayed W)) (logger lv m).
Proof.
  intros st H tx Htx. unfold relayed_ids. simpl. rewrite omap_app.
  apply elem_of_app. left. by apply H.
Qed.

Lemma rpc_recorded {A} (url : string) (op : RpcOp) (f : W -> Reply A * W) :
  transforms (keeps recorded_were_relayed) (rpc url op f).
Proof.
  intros st H. unfold rpc. destruct (f (world st)) as [[a | e] w1]; exact H.
Qed.

Lemma set_last_recorded (b : Z) :
  transforms (keeps (@recorded_were_relayed W)) (set_last_processed_block b).
Proof. intros st H. exact H. Qed.

Lemma sleep_recorded (secs : Z) :
  transforms (keeps recorded_were_relayed) (sleep ext secs).
Proof.
  intros st H. unfold sleep.
  destruct (time_sleep ext secs (world st)) as [[[] | e] w1]; exact H.
Qed.

Lemma fresh_set_recorded :
  transforms (keeps (@recorded_were_relayed W)) (set_processed_transactions ∅).
Proof. intros st _ tx Htx. simpl in Htx. by apply elem_of_empty in Htx. Qed.

Lemma process_event_recorded (self : BridgeEventHandler) (event : Event) :
  transforms (keeps recorded_were_relayed) (process_event ext self event).
Proof.
  intros st H.
  destruct (process_event_summary ext self event st)
    as (st' & dl & dc & o & -> & Hlog & _ & _ & _ & _ & _ & _ & Hcase).
  simpl. intros tx Htx. rewrite Hlog. unfold relayed_ids. rewrite omap_app.
  apply elem_of_app.
  destruct o as [| | e].
  - destruct Hcase as (_ & Hset & Hrel & _). rewrite Hset in Htx.
    apply elem_of_union in Htx as [Hone | Hold].
    + right. fold (relayed_ids dl). rewrite Hrel.
      apply elem_of_singleton in Hone as ->. apply list_elem_of_singleton. reflexivity.
    + left. by apply H.
  - destruct Hcase as (_ & Hset & _). rewrite Hset in Htx. left. by apply H.
  - destruct Hcase as (_ & Hset & _). rewrite Hset in Htx. left. by apply H.
Qed.

End Index.

#[local] Hint Resolve logger_index_grows rpc_index_grows set_last_index_grows
  sleep_index_grows process_event_index_grows
  logger_recorded rpc_recorded set_last_recorded sleep_recorded fresh_set_recorded
  process_event_recorded : transforms.

Section IndexOverRun.

Context {W : Type} (ext : Externals W).

Lemma main_recorded (environ : gmap string string) (fuel : nat) :
  transforms (keeps recorded_were_relayed) (main ext environ fuel).
Proof.
  unfold main, load_config_from_env, getenv_int, main_handler,
    BridgeEventListener_init, BridgeEventHandler_init, ChainConnector_init,
    get_contract, run, cycle, scan_and_dispatch, loop_handler.
  structural.
Qed.

End IndexOverRun.

(** X13 - identifiers are never forgotten.  Neither a dispatch, a cycle nor
    any number of cycles of the loop removes an identifier from the set of
    processed identifiers. *)
Theorem index_never_shrinks {W} (ext : Externals W) (self : BridgeEventListener)
    (event : Event) (fuel : nat) (st : State W) :
  processed_transactions st ⊆
    processed_transactions (snd (process_event ext (event_handler self) event st)) /\
  processed_transactions st ⊆ processed_transactions (snd (cycle ext self st)) /\
  processed_transactions st ⊆ processed_transactions (snd (run ext self fuel st)).
Proof.
  split; [| split].
  - apply (process_event_index_grows ext (event_handler self) event st).
  - assert (H : transforms index_grows (cycle ext self))
      by (unfold cycle, scan_and_dispatch, loop_handler; structural).
    apply (H st).
  - assert (H : transforms index_grows (run ext self fuel))
      by (unfold run, cycle, scan_and_dispatch, loop_handler; structural).
    apply (H st).
Qed.

(** X14 - the set holds exactly the relayed identifiers.  At any point of
    a process, from start-up through any number of cycles and whatever the
    nodes answer, the set of processed identifiers is the set of
    identifiers the log reports as successfully processed, and it has as
    many elements as there are such reports: an identifier is recorded
    only by a completed release, and each completed release records one. *)
Theorem index_is_the_relayed_identifiers {W} (ext : Externals W)
    (environ : gmap string string) (fuel : nat) (w : W) :
  let st := snd (main ext environ fuel (initial_state w)) in
  processed_transactions st = list_to_set (relayed_ids (log st)) /\
  size (processed_transactions st) = length (relayed_ids (log st)).
Proof.
  intros st.
  assert (Hrec : recorded_were_relayed st).
  { apply (main_recorded ext environ fuel (initial_state w)).
    intros tx Htx. simpl in Htx. by apply elem_of_empty in Htx. }
  destruct (main_relay_invariant ext environ fuel (initial_state w)) as [Hnd Hin];
    [reflexivity |].
  fold st in Hnd, Hin.
  assert (Heq : processed_transactions st = list_to_set (relayed_ids (log st))).
  { apply set_eq. intros tx. rewrite elem_of_list_to_set. split; [apply Hrec | apply Hin]. }
  split; [exact Heq |].
  rewrite Heq at 1. by apply size_list_to_set.
Qed.

(** ** What a dispatch leaves behind *)

Section Dispatch.

Context {W : Type} (ext : Externals W).

(** A dispatch ends with the identifier recorded or with the failure of
    this very event logged as an error. *)
Lemma process_event_terminal (self : BridgeEventHandler) (event : Event) (st : State W) :
  let st' := snd (process_event ext self event st) in
  tx_id_of event ∈ processed_transactions st' \/
  exists e, In (mkLog ERROR (MsgErrorProcessing event e)) (new_log st st').
Proof.
  intros st'.
  destruct (decide (tx_id_of event ∈ processed_transactions st)) as [Hin | Hnin].
  - left. unfold st'. rewrite (process_event_duplicate ext self event st Hin). exact Hin.
  - pose proof (process_event_new ext self event st Hnin) as Hpe. simpl in Hpe.
    destruct (release_spec ext self event
                (snd (logger INFO (MsgProcessingNew (tx_id_of event)) st)))
      as (r & st1 & dl & dc & Hrun & _ & Hlog & _).
    simpl in Hrun, Hlog. rewrite Hrun in Hpe.
    destruct r as [[] | e |]; [| | done].
    + left. unfold st'. rewrite Hpe. simpl.
      apply elem_of_union_l, elem_of_singleton. reflexivity.
    + right. exists e. unfold st', new_log. rewrite Hpe. simpl.
      rewrite Hlog, <- !app_assoc, drop_app_length.
      apply in_or_app. right. apply in_or_app. right. simpl. tauto.
Qed.

(** The node calls of a release: at most three, all sent to the endpoint
    of the handler's connector. *)
Lemma release_calls_bound (self : BridgeEventHandler) (event : Event) (st : State W) :
  exists dc,
    calls (snd (_simulate_release_tokens ext self event st)) = calls st ++ dc /\
    (length dc <= 3)%nat /\
    Forall (fun c => call_rpc c = rpc_url (h_dest_connector self)) dc.
Proof.
  unfold _simulate_release_tokens, bind, try_except, rpc, local, logger, raise. simpl.
  destruct (from_key ext _) as [wallet | e]; simpl.
  { destruct (get_transaction_count ext _ _ _) as [[nonce | e] w1]; simpl.
    { destruct (gas_price ext _ _) as [[price | e] w2]; simpl.
      { destruct (build_transaction ext _ _ _ _) as [[tx | e] w3]; simpl.
        { destruct (sign_transaction ext _ _) as [signed | e]; simpl;
            eexists [_; _; _]; rewrite <- !app_assoc;
            (split; [reflexivity | split; [simpl; lia | repeat constructor]]). }
        eexists [_; _; _]; rewrite <- !app_assoc;
          (split; [reflexivity | split; [simpl; lia | repeat constructor]]). }
      eexists [_; _]; rewrite <- !app_assoc;
        (split; [reflexivity | split; [simpl; lia | repeat constructor]]). }
    eexists [_]; (split; [reflexivity | split; [simpl; lia | repeat constructor]]). }
  exists []. rewrite app_nil_r. split; [reflexivity | split; [simpl; lia | constructor]].
Qed.

End Dispatch.

(** X15 - no event of a scan is dropped silently.  After the loop over the
    events of a scan, whatever the nodes answered, every event of the list
    either has its identifier in the set of processed identifiers or has
    an error record of its own in what the loop logged, naming the event
    and the exception. *)
Theorem every_event_is_recorded_or_reported {W} (ext : Externals W)
    (self : BridgeEventHandler) (events : list Event) (st : State W) :
  let st' := snd (for_each events (process_event ext self) st) in
  Forall (fun event =>
            tx_id_of event ∈ processed_transactions st' \/
            exists e, In (mkLog ERROR (MsgErrorProcessing event e)) (new_log st st'))
         events.
Proof.
  revert st. induction events as [| event rest IH]; intros st st'; [constructor |].
  destruct (process_event_summary ext self event st)
    as (s1 & dl1 & dc1 & o & Hpe & Hlog1 & _).
  destruct (dispatch_all_summary ext self rest s1)
    as (s2 & dl2 & dc2 & Hfe & Hlog2 & _ & _ & _ & _ & _ & Hsub).
  assert (Hst' : st' = s2).
  { unfold st'. simpl. unfold bind. rewrite Hpe. by rewrite Hfe. }
  assert (Hnew : new_log st s2 = dl1 ++ dl2).
  { apply new_log_app. rewrite Hlog2, Hlog1. by rewrite app_assoc. }
  rewrite Hst', Hnew. constructor.
  - pose proof (process_event_terminal ext self event st) as Hterm.
    rewrite Hpe in Hterm. simpl in Hterm.
    rewrite (new_log_app st s1 dl1 Hlog1) in Hterm.
    destruct Hterm as [Hin | [e He]].
    + left. by apply Hsub.
    + right. exists e. apply in_or_app. by left.
  - specialize (IH s1). simpl in IH. rewrite Hfe in IH. simpl in IH.
    rewrite (new_log_app s1 s2 dl2 Hlog2) in IH.
    eapply Forall_impl; [exact IH |].
    intros ev [Hin | [e He]]; [by left |].
    right. exists e. apply in_or_app. by right.
Qed.

(** X16 - a dispatch makes at most three node calls, all to the destination
    endpoint.  Whatever the nodes answer, one dispatch of an event sends at
    most three calls (nonce, gas price, build), each of them to the
    endpoint of the handler's connector: nothing is tried a second time
    inside a dispatch, and the source node is never contacted by it. *)
Theorem dispatch_calls_are_bounded {W} (ext : Externals W) (self : BridgeEventHandler)
    (event : Event) (st : State W) :
  let st' := snd (process_event ext self event st) in
  (length (new_calls st st') <= 3)%nat /\
  Forall (fun c => call_rpc c = rpc_url (h_dest_connector self)) (new_calls st st').
Proof.
  intros st'.
  destruct (decide (tx_id_of event ∈ processed_transactions st)) as [Hin | Hnin].
  - unfold st', new_calls. rewrite (process_event_duplicate ext self event st Hin). simpl.
    rewrite drop_all. split; [simpl; lia | constructor].
  - pose proof (process_event_new ext self event st Hnin) as Hpe. simpl in Hpe.
    destruct (release_calls_bound ext self event
                (snd (logger INFO (MsgProcessingNew (tx_id_of event)) st)))
      as (dc & Hcalls & Hlen & Hdest).
    simpl in Hcalls.
    destruct (_simulate_release_tokens ext self event _) as [[[] | e |] s1];
      [| | done]; simpl in Hcalls; unfold st'; rewrite Hpe; simpl;
      rewrite (new_calls_app st _ dc); try exact Hcalls; split; assumption.
Qed.

(** X17 - what decides the outcome of a dispatch.  A dispatch is reported
    as already relayed exactly when the identifier is in the set; otherwise
    it is reported as relayed when the account derivation, the nonce query,
    the gas price query, the build and the signature all return, and as
    failed with the exception of the first of these five that throws: the
    later ones are then not called. *)
Theorem dispatch_outcome_decided {W} (ext : Externals W) (self : BridgeEventHandler)
    (event : Event) (st : State W) :
  let url := rpc_url (h_dest_connector self) in
  let key := listener_private_key (h_config self) in
  dispatch_outcome ext self event st =
    if decide (tx_id_of event ∈ processed_transactions st) then Some AlreadyRelayed
    else
      match from_key ext key with
      | Throws e => Some (Failed e)
      | Returns wallet =>
          match get_transaction_count ext url wallet (world st) with
          | (Throws e, _) => Some (Failed e)
          | (Returns nonce, w1) =>
              match gas_price ext url w1 with
              | (Throws e, _) => Some (Failed e)
              | (Returns price, w2) =>
                  match build_transaction ext url (release_action self event)
                          (mkTxPayload wallet nonce 200000 price) w2 with
                  | (Throws e, _) => Some (Failed e)
                  | (Returns tx, _) =>
                      match sign_transaction ext tx key with
                      | Throws e => Some (Failed e)
                      | Returns _ => Some Relayed
                      end
                  end
              end
          end
      end.
Proof.
  intros url key.
  destruct (process_event_summary ext self event st)
    as (s1 & dl & dc & o & Hpe & _ & _ & _ & _ & _ & _ & Hout & Hcase).
  destruct (decide (tx_id_of event ∈ processed_transactions st)) as [Hin | Hnin].
  - rewrite Hout. destruct o; destruct Hcase as (Hn & _); [contradiction | done | contradiction].
  - clear Hout Hcase Hpe.
    pose proof (process_event_new ext self event st Hnin) as Hpe. simpl in Hpe.
    pose proof (release_result ext self event
                  (snd (logger INFO (MsgProcessingNew (tx_id_of event)) st))) as Hres.
    simpl in Hres. fold url key in Hres.
    destruct (release_spec ext self event
                (snd (logger INFO (MsgProcessingNew (tx_id_of event)) st)))
      as (r & s2 & dl2 & dc2 & Hrun & _ & Hlog & _).
    simpl in Hrun, Hlog. rewrite Hrun in Hpe, Hres. simpl in Hres.
    assert (Hd : dispatch_outcome ext self event st =
                 match r with
                 | Ok _ => Some Relayed
                 | Raise e => Some (Failed e)
                 | Running => None
                 end).
    { unfold dispatch_outcome, new_log.
      destruct r as [[] | e |]; [| | done]; rewrite Hpe; simpl;
        rewrite Hlog, <- !app_assoc, drop_app_length; simpl;
        rewrite app_comm_cons, last_snoc; reflexivity. }
    rewrite Hd, Hres.
    destruct (from_key ext key) as [wallet | e]; [| reflexivity].
    destruct (get_transaction_count ext url wallet (world st)) as [[nonce | e] w1];
      [| reflexivity].
    destruct (gas_price ext url w1) as [[price | e] w2]; [| reflexivity].
    destruct (build_transaction ext url _ _ w2) as [[tx | e] w3]; [| reflexivity].
    destruct (sign_transaction ext tx key) as [signed | e]; reflexivity.
Qed.

(** ** The ranges a run queries *)

Section Ranges.

Context {W : Type} (ext : Externals W).

(** Every event query of the loop starts above the watermark the loop was
    entered with and covers at least one block. *)
Lemma loop_ranges (self : BridgeEventListener) (fuel : nat) (st : State W) :
  exists dc,
    calls (snd (@while_true W unit fuel (cycle ext self) st)) = calls st ++ dc /\
    Forall (fun range => last_processed_block st < fst range /\ fst range <= snd range)
           (query_ranges dc).
Proof.
  revert st. induction fuel as [| n IH]; intros st; simpl.
  - exists []. rewrite app_nil_r. split; [reflexivity | constructor].
  - destruct (cycle_summary ext self st)
      as (r & s1 & dl & dc1 & Hc & _ & _ & _ & Hcalls1 & _ & _ & Hcase).
    assert (Hq : Forall (fun range => last_processed_block st < fst range /\
                                       fst range <= snd range) (query_ranges dc1)).
    { destruct (node_answers ext self st) as [e | head | head e | head events].
      - destruct Hcase as (_ & -> & _). constructor.
      - destruct Hcase as (_ & _ & -> & _). constructor.
      - destruct Hcase as (Hlt & _ & -> & _). repeat constructor; simpl; lia.
      - destruct Hcase as (Hlt & _ & -> & _). repeat constructor; simpl; lia. }
    pose proof (cycle_watermark ext self st) as Hwm. rewrite Hc in Hwm. simpl in Hwm.
    unfold bind. rewrite Hc.
    destruct r as [[] | e |].
    + destruct (IH s1) as (dc2 & Hcalls2 & Hq2).
      exists (dc1 ++ dc2). split.
      * rewrite Hcalls2, Hcalls1. by rewrite app_assoc.
      * unfold query_ranges in *. rewrite omap_app. apply Forall_app. split; [exact Hq |].
        eapply Forall_impl; [exact Hq2 |]. intros range [H1 H2]. split; lia.
    + exists dc1. split; [exact Hcalls1 | exact Hq].
    + exists dc1. split; [exact Hcalls1 | exact Hq].
Qed.

End Ranges.

(** X18 - the scan never goes back.  Over any number of cycles of [run],
    whatever the nodes answer, every event query starts strictly above the
    watermark [run] was entered with and covers at least one block: a
    block at or below the watermark is never queried again, and no empty
    or inverted range is ever queried. *)
Theorem scan_never_goes_back {W} (ext : Externals W) (self : BridgeEventListener)
    (fuel : nat) (st : State W) :
  Forall (fun range => last_processed_block st < fst range /\ fst range <= snd range)
         (query_ranges (new_calls st (snd (run ext self fuel st)))).
Proof.
  unfold run, bind, logger, gets. simpl.
  match goal with
  | |- context [while_true fuel (cycle ext self) ?s] =>
      destruct (loop_ranges ext self fuel s) as (dc & Hcalls & Hq)
  end.
  simpl in Hcalls, Hq.
  rewrite (new_calls_app st _ dc Hcalls). exact Hq.
Qed.
